(** * josemltools.eda: exploratory-data-analysis helpers

    Shallow embedding of [src/josemltools/eda.py] and the properties of its
    outlier, quartile, skewness, normality, percentage and mode computations.

    Modelling conventions.
    - A Python float is a finite binary64 number or NaN: [float := option Q],
      the rational being the exact value of the double and [None] standing
      for NaN.  An arithmetic operation computes the exact result and rounds
      it to the nearest double, ties to the even mantissa ([b64]); any
      operation on NaN yields NaN and every comparison with NaN is false, as
      in IEEE 754.  Overflow and infinities are not modelled.
    - A pandas [Series] is a typed list of cells, a [DataFrame] an index of
      row labels with named columns in declared order.  Column labels of a
      frame are distinct and all columns have the length of the index
      ([wf_frame]).
    - Python exceptions are identified by their class name.  Printing is a
      log of [Print] events holding the printed arguments; plotting calls
      are logged as [Draw] events and never influence a computed value.
    - pandas, SciPy and Python built-ins called by the module are modelled
      by their documented behaviour ([quantile] with linear interpolation,
      [mode] returning the sorted most frequent values, [round] rounding
      half to even, [DataFrame.append] aligning on the union of columns);
      a reduction of pandas returns the correctly rounded exact result.
      Standard deviation, skewness and the Shapiro-Wilk test are external
      capabilities handed to the module as an [Externals] record.
    - [plot_outliers_per_column] only renders the outlier count and is not
      modelled. *)

From Stdlib Require Import PrimFloat FloatOps.
From Stdlib Require Import String.
From Stdlib Require Import QArith Qabs Qround Qpower ZArith List Bool Arith Lia Lqa.
From Stdlib Require Import Permutation Sorted.
Import ListNotations.

Local Open Scope Q_scope.

(** ** Floats *)

(** Nearest integer, ties to the even neighbour. *)
Definition round_half_even (x : Q) : Z :=
  let f := Qfloor x in
  match Qcompare (x - inject_Z f) (1 # 2) with
  | Lt => f
  | Gt => (f + 1)%Z
  | Eq => if Z.even f then f else (f + 1)%Z
  end.

Definition pow2 (e : Z) : Q := 2 ^ e.

(** [floor (log2 x)] for a positive [x]. *)
Definition floor_log2 (x : Q) : Z :=
  let k := (Z.log2 (Qnum x) - Z.log2 (Zpos (Qden x)))%Z in
  if Qle_bool (pow2 k) x then k else (k - 1)%Z.

(** The exponent of the last mantissa bit of the doubles around a positive
    [x]: 53 bits of precision, subnormal below [2^-1022]. *)
Definition exponent (x : Q) : Z := Z.max (floor_log2 x - 52) (-1074).

(** The double nearest to a positive [x], ties to the even mantissa. *)
Definition nearest (x : Q) : Q :=
  inject_Z (round_half_even (x / pow2 (exponent x))) * pow2 (exponent x).

(** Rounding to binary64, the result in lowest terms. *)
Definition b64 (x : Q) : Q :=
  match Qcompare x 0 with
  | Eq => 0
  | Gt => Qred (nearest (Qred x))
  | Lt => Qred (- nearest (Qred (- x)))
  end.

Definition float : Type := option Q.

Definition NaN : float := None.

(** The float of a real result, and of a literal. *)
Definition fl (x : Q) : float := Some (b64 x).

(** The exact value of a finite binary64 number of the kernel. *)
Definition value_of (f : PrimFloat.float) : Q :=
  match FloatOps.Prim2SF f with
  | SpecFloat.S754_finite s m e => (if s then -1 else 1) * inject_Z (Zpos m) * pow2 e
  | _ => 0
  end.

Definition Qltb (x y : Q) : bool := negb (Qle_bool y x).

Definition flift2 (op : Q -> Q -> Q) (a b : float) : float :=
  match a, b with
  | Some x, Some y => fl (op x y)
  | _, _ => NaN
  end.

Definition fadd : float -> float -> float := flift2 Qplus.
Definition fsub : float -> float -> float := flift2 Qminus.
Definition fmul : float -> float -> float := flift2 Qmult.

(** [a < b], [a > b], [a <= b], [a >= b] on floats: false on NaN. *)
Definition flt (a b : float) : bool :=
  match a, b with
  | Some x, Some y => Qltb x y
  | _, _ => false
  end.

Definition fgt (a b : float) : bool := flt b a.

Definition fle (a b : float) : bool :=
  match a, b with
  | Some x, Some y => Qle_bool x y
  | _, _ => false
  end.

Definition fge (a b : float) : bool := fle b a.

(** ** Sorting and missing values *)

Section Sorting.
Variable A : Type.
Variable leb : A -> A -> bool.

Fixpoint insert_sorted (x : A) (l : list A) : list A :=
  match l with
  | [] => [x]
  | y :: t => if leb x y then x :: l else y :: insert_sorted x t
  end.

Fixpoint sort_values (l : list A) : list A :=
  match l with
  | [] => []
  | x :: t => insert_sorted x (sort_values t)
  end.
End Sorting.

Arguments insert_sorted {A} leb x l.
Arguments sort_values {A} leb l.

Fixpoint dropna {A : Type} (l : list (option A)) : list A :=
  match l with
  | [] => []
  | Some x :: t => x :: dropna t
  | None :: t => dropna t
  end.

(** ** pandas reductions on a numeric column *)

Definition Qsum (l : list Q) : Q := fold_right Qplus 0 l.

(** [Series.mean()]: missing values are skipped, NaN when nothing is left. *)
Definition series_mean (vs : list float) : float :=
  match dropna vs with
  | [] => NaN
  | a => fl (Qsum a / inject_Z (Z.of_nat (length a)))
  end.

(** Values in ascending order, by position. *)
Definition ordered (a : list Q) : Prop :=
  forall i j, (i <= j)%nat -> (j < List.length a)%nat -> nth i a 0 <= nth j a 0.

(** [Series.quantile(q)] with the default linear interpolation: on the
    sorted non-missing values [a] of length [n], the virtual index is
    [(n-1)*q]; the result interpolates between the two closest ranks. *)
Definition interpolate (a : list Q) (pos : Q) : Q :=
  let j := Z.to_nat (Qfloor pos) in
  let g := pos - inject_Z (Qfloor pos) in
  let lo := nth j a 0 in
  let hi := nth (Nat.min (j + 1) (length a - 1)) a 0 in
  lo + (hi - lo) * g.

Definition quantile (vs : list float) (q : Q) : float :=
  match sort_values Qle_bool (dropna vs) with
  | [] => NaN
  | a => fl (interpolate a (inject_Z (Z.of_nat (length a) - 1) * q))
  end.

(** [Series.median()]: the middle value, or the mean of the two middle
    values. *)
Definition series_median (vs : list float) : float :=
  match sort_values Qle_bool (dropna vs) with
  | [] => NaN
  | a =>
      let n := length a in
      if Nat.even n
      then fl ((nth (n / 2 - 1)%nat a 0 + nth (n / 2)%nat a 0) / 2)
      else Some (nth (n / 2)%nat a 0)
  end.

(** ** Python built-ins *)

(** [round(x, ndigits)] on a float. *)
Definition py_round (x : float) (ndigits : nat) : float :=
  match x with
  | Some v =>
      let s := inject_Z (10 ^ Z.of_nat ndigits) in
      fl (inject_Z (round_half_even (v * s)) / s)
  | None => NaN
  end.

(** ** Exceptions, by class name *)

Definition PyExc : Type := string.

Definition KeyError : PyExc := "KeyError"%string.
Definition TypeError : PyExc := "TypeError"%string.
Definition ZeroDivisionError : PyExc := "ZeroDivisionError"%string.

(** ** pandas [mode] and [unique] *)

Section Mode.
Variable A : Type.
Variable eqb : A -> A -> bool.
Variable leb : A -> A -> bool.

Definition count_of (x : A) (l : list A) : nat :=
  List.length (filter (eqb x) l).

Definition max_count (l : list A) : nat :=
  fold_right (fun x m => Nat.max (count_of x l) m) 0%nat l.

(** Distinct values in order of first appearance. *)
Fixpoint unique (l : list A) : list A :=
  match l with
  | [] => []
  | x :: t => x :: filter (fun y => negb (eqb x y)) (unique t)
  end.

(** The most frequent values, sorted ascending. *)
Definition mode (l : list A) : list A :=
  sort_values leb
    (filter (fun x => Nat.eqb (count_of x l) (max_count l)) (unique l)).
End Mode.

Arguments count_of {A} eqb x l.
Arguments max_count {A} eqb l.
Arguments unique {A} eqb l.
Arguments mode {A} eqb leb l.

Definition opt_eqb {A : Type} (eqb : A -> A -> bool) (a b : option A) : bool :=
  match a, b with
  | Some x, Some y => eqb x y
  | None, None => true
  | _, _ => false
  end.

(** ** Series and data frames *)

Inductive Series : Type :=
| NumSeries (vs : list float)
| ObjSeries (vs : list (option string)).

Record DataFrame : Type := mkDataFrame {
  index : list nat;
  columns : list (string * Series)
}.

Definition len (df : DataFrame) : nat := List.length (index df).

Definition series_len (s : Series) : nat :=
  match s with
  | NumSeries vs => List.length vs
  | ObjSeries vs => List.length vs
  end.

Fixpoint lookup {V : Type} (k : string) (l : list (string * V)) : option V :=
  match l with
  | [] => None
  | (k', v) :: t => if String.eqb k k' then Some v else lookup k t
  end.

Fixpoint distinct (l : list string) : bool :=
  match l with
  | [] => true
  | x :: t => negb (existsb (String.eqb x) t) && distinct t
  end.

Definition wf_frame (df : DataFrame) : bool :=
  distinct (map fst (columns df))
  && forallb (fun c => Nat.eqb (series_len (snd c)) (len df)) (columns df).

(** Rows selected by a boolean mask. *)
Fixpoint mask_filter {A : Type} (mask : list bool) (l : list A) : list A :=
  match mask, l with
  | b :: m, x :: t => if b then x :: mask_filter m t else mask_filter m t
  | _, _ => []
  end.

Definition series_filter (mask : list bool) (s : Series) : Series :=
  match s with
  | NumSeries vs => NumSeries (mask_filter mask vs)
  | ObjSeries vs => ObjSeries (mask_filter mask vs)
  end.

(** [df[mask]] *)
Definition getitem_mask (df : DataFrame) (mask : list bool) : DataFrame :=
  {| index := mask_filter mask (index df);
     columns := map (fun c => (fst c, series_filter mask (snd c))) (columns df) |}.

(** Element-wise [|] of two boolean series. *)
Fixpoint mask_or (a b : list bool) : list bool :=
  match a, b with
  | x :: a', y :: b' => (x || y) :: mask_or a' b'
  | _, _ => []
  end.

(** ** Output and exceptions *)

Inductive pyval : Type :=
| VStr (s : string)
| VInt (z : Z)
| VFloat (f : float)
| VFormat (fmt : string) (args : list float).

Inductive event : Type :=
| Print (args : list pyval)
| Draw (call : string) (args : list pyval).

(** A computation prints, then either raises or returns. *)
Definition Py (A : Type) : Type := (list event * (PyExc + A))%type.

Definition ret {A : Type} (a : A) : Py A := ([], inr a).
Definition raise {A : Type} (e : PyExc) : Py A := ([], inl e).

Definition bind {A B : Type} (c : Py A) (f : A -> Py B) : Py B :=
  match c with
  | (out, inl e) => (out, inl e)
  | (out, inr a) => let (out', r) := f a in (out ++ out', r)
  end.

Declare Scope py_scope.
Delimit Scope py_scope with py.
Notation "x <- c ;; k" := (bind c (fun x => k))
  (at level 61, c at next level, right associativity) : py_scope.
Notation "c ;; k" := (bind c (fun _ => k))
  (at level 61, right associativity) : py_scope.
Local Open Scope py_scope.

Definition print (args : list pyval) : Py unit := ([Print args], inr tt).
Definition draw (call : string) (args : list pyval) : Py unit :=
  ([Draw call args], inr tt).

Definition when (b : bool) (c : Py unit) : Py unit := if b then c else ret tt.

Definition output {A : Type} (c : Py A) : list event := fst c.
Definition outcome {A : Type} (c : Py A) : PyExc + A := snd c.

Fixpoint for_each {A B : Type} (l : list A) (body : A -> Py B) : Py (list B) :=
  match l with
  | [] => ret []
  | x :: t => y <- body x ;; ys <- for_each t body ;; ret (y :: ys)
  end.

Fixpoint for_fold {A S : Type} (l : list A) (body : S -> A -> Py S) (s : S) : Py S :=
  match l with
  | [] => ret s
  | x :: t => s' <- body s x ;; for_fold t body s'
  end.

(** [a / b] on Python integers. *)
Definition truediv (a b : Z) : Py float :=
  if (b =? 0)%Z then raise ZeroDivisionError
  else ret (fl (inject_Z a / inject_Z b)).

(** [df[col]] *)
Definition getitem (df : DataFrame) (col : string) : Py Series :=
  match lookup col (columns df) with
  | Some s => ret s
  | None => raise KeyError
  end.

(** Numeric reductions and comparisons reject a column of objects. *)
Definition numeric (s : Series) : Py (list float) :=
  match s with
  | NumSeries vs => ret vs
  | ObjSeries _ => raise TypeError
  end.

Definition num_col (df : DataFrame) (col : string) : Py (list float) :=
  s <- getitem df col ;; numeric s.

(** [df[col].mode()[0]] *)
Definition mode0 (s : Series) : Py pyval :=
  match s with
  | NumSeries vs =>
      match mode Qeq_bool Qle_bool (dropna vs) with
      | m :: _ => ret (VFloat (Some m))
      | [] => raise KeyError
      end
  | ObjSeries vs =>
      match mode String.eqb String.leb (dropna vs) with
      | m :: _ => ret (VStr m)
      | [] => raise KeyError
      end
  end.

(** [len(df[col].unique())]: a missing value counts as one value. *)
Definition nunique (s : Series) : nat :=
  match s with
  | NumSeries vs => List.length (unique (opt_eqb Qeq_bool) vs)
  | ObjSeries vs => List.length (unique (opt_eqb String.eqb) vs)
  end.

(** ** External capabilities *)

(** [Series.std()], [Series.skew()] and [scipy.stats.shapiro], which
    returns the statistic and the p-value or raises. *)
Record Externals : Type := {
  series_std : list float -> float;
  series_skew : list float -> float;
  shapiro : list float -> PyExc + (float * float)
}.

(** ** The module *)

Definition truthy (target : option string) : bool :=
  match target with
  | Some EmptyString => false
  | Some _ => true
  | None => false
  end.

(** The messages of the two verdicts. *)
Definition highly_skewed : string := "The distribution is highly skewed".
Definition moderately_skewed : string := "The distribution is moderately skewed".
Definition looks_gaussian : string := "Sample looks Gaussian (fail to reject H0)".
Definition not_gaussian : string := "Sample does not look Gaussian (reject H0)".

(** Lines 85-89: the verdict printed for a skewness value. *)
Definition skew_verdict (skew : float) : Py unit :=
  if flt skew (Some (-1)) || fgt skew (Some 1)
  then print [VStr highly_skewed]
  else if (fge skew (Some (-1)) && flt skew (Some (-0.5)))
          || (fgt skew (Some 0.5) && fle skew (Some 1))
  then print [VStr moderately_skewed]
  else ret tt.

(** Lines 100-103: the verdict printed for a p-value. *)
Definition gaussian_verdict (p : float) : Py unit :=
  if fgt p (fl 0.05)
  then print [VStr looks_gaussian]
  else print [VStr not_gaussian].

Section Eda.
Variable ext : Externals.

(** The three prints of [print_stats], the same in the continuous and in
    the discrete study. *)
Definition print_mean_median_std (df : DataFrame) (col : string) : Py unit :=
  vs <- num_col df col ;;
  print [VStr "The column "; VStr col; VStr " mean is "; VFloat (series_mean vs)] ;;
  vs <- num_col df col ;;
  print [VStr "The column "; VStr col; VStr " median is "; VFloat (series_median vs)] ;;
  vs <- num_col df col ;;
  print [VStr "The column "; VStr col; VStr " standard deviation is ";
         VFloat (series_std ext vs)].

Definition study_column_continuous (df : DataFrame) (col : string)
    (print_stats plot skew gaussian_test : bool) : Py DataFrame :=
  when print_stats (print_mean_median_std df col) ;;
  quants <- for_each [1; 2; 3]%Z (fun i =>
    vs <- num_col df col ;;
    let q := quantile vs (i # 4) in
    print [VStr "Quantile "; VInt i; VStr " for "; VStr col; VStr " is "; VFloat q] ;;
    ret q) ;;
  let iqr := fsub (nth 2 quants NaN) (nth 0 quants NaN) in
  print [VStr "IQR for the "; VStr col; VStr " variable: "; VFloat iqr] ;;
  let lowerBound := fsub (nth 0 quants NaN) (fmul (Some 1.5) iqr) in
  let upperBound := fadd (nth 2 quants NaN) (fmul (Some 1.5) iqr) in
  print [VStr "Lower and upper outlier limits for the "; VStr col;
         VStr " variable:"; VFloat lowerBound; VStr ", "; VFloat upperBound] ;;
  when plot (
    _ <- getitem df col ;;
    draw "boxplot" [VStr col] ;;
    _ <- getitem df col ;;
    draw "stripplot" [VStr col] ;;
    _ <- getitem df col ;;
    draw "histplot" [VStr col] ;;
    vs <- num_col df col ;;
    draw "axvline" [VFloat (series_mean vs); VStr "Mean"] ;;
    vs <- num_col df col ;;
    draw "axvline" [VFloat (series_median vs); VStr "Median"] ;;
    draw "show" []) ;;
  when skew (
    vs <- num_col df col ;;
    let skew := series_skew ext vs in
    print [VStr "Skew for the "; VStr col; VStr " variable: "; VFloat skew] ;;
    skew_verdict skew) ;;
  when gaussian_test (
    _ <- getitem df col ;;
    draw "probplot" [VStr col] ;;
    draw "show" [] ;;
    vs <- num_col df col ;;
    sp <- ([], shapiro ext vs) ;;
    print [VFormat "Statistics=%.4f, p=%.4f" [fst sp; snd sp]] ;;
    gaussian_verdict (snd sp)) ;;
  vs <- num_col df col ;;
  let outliers :=
    getitem_mask df (mask_or (map (fun v => flt v lowerBound) vs)
                             (map (fun v => fgt v upperBound) vs)) in
  pct <- truediv (Z.of_nat (len outliers) * 100) (Z.of_nat (len df)) ;;
  print [VStr "Number of outliers: "; VInt (Z.of_nat (len outliers));
         VStr " which is "; VFloat (py_round pct 2);
         VStr "% of the total dataset"] ;;
  ret outliers.

Definition study_column_discrete (df : DataFrame) (col : string)
    (target : option string) (print_stats : bool) : Py unit :=
  when print_stats (
    print_mean_median_std df col ;;
    s <- getitem df col ;;
    m <- mode0 s ;;
    print [VStr "The column "; VStr col; VStr " mode is "; m]) ;;
  (if truthy target
   then draw "countplot" [VStr col]
   else _ <- getitem df col ;; draw "barplot" [VStr col]) ;;
  draw "show" [].

Definition study_column_categorical (df : DataFrame) (col : string)
    (target : option string) : Py unit :=
  s <- getitem df col ;;
  m <- mode0 s ;;
  print [VStr "The column "; VStr col; VStr " mode is "; m] ;;
  s <- getitem df col ;;
  print [VStr "The column "; VStr col; VStr " has ";
         VInt (Z.of_nat (nunique s)); VStr " unique values"] ;;
  _ <- getitem df col ;;
  draw "pie" [VStr col] ;;
  draw "show" [] ;;
  when (truthy target
        && negb (opt_eqb String.eqb target (Some col)))
       (draw "histplot" [VStr col]).
End Eda.

(** ** The outlier report *)

(** The frame built by [count_outliers_per_column]: its column labels and
    the appended records.  A cell whose label is absent from its record is
    a missing value. *)
Record Report : Type := mkReport {
  rcolumns : list string;
  rrows : list (list (string * pyval))
}.

(** [pd.DataFrame(columns=labels)] *)
Definition empty_report (labels : list string) : Report :=
  {| rcolumns := labels; rrows := [] |}.

(** [out.append(record, ignore_index=True)]: the labels become the union of
    the frame's and the record's, the frame's first. *)
Definition append (out : Report) (record : list (string * pyval)) : Report :=
  {| rcolumns :=
       rcolumns out
       ++ filter (fun k => negb (existsb (String.eqb k) (rcolumns out)))
            (map fst record);
     rrows := rrows out ++ [record] |}.

Definition cell (row : list (string * pyval)) (label : string) : option pyval :=
  lookup label row.

Definition is_numeric (s : Series) : bool :=
  match s with
  | NumSeries _ => true
  | ObjSeries _ => false
  end.

(** [df.select_dtypes(include=np.number).columns] *)
Definition numeric_columns (df : DataFrame) : list string :=
  map fst (filter (fun c => is_numeric (snd c)) (columns df)).

(** Lines 206-215: the record appended for one column. *)
Definition outlier_record (df : DataFrame) (col : string) : Py (list (string * pyval)) :=
  let len_df := len df in
  vs <- num_col df col ;;
  let num_high_outliers :=
    len (getitem_mask df
           (map (fun v => fgt v (fadd (quantile vs 0.75)
                                   (fmul (Some 1.5)
                                      (fsub (quantile vs 0.75) (quantile vs 0.25)))))
              vs)) in
  vs <- num_col df col ;;
  let num_low_outliers :=
    len (getitem_mask df
           (map (fun v => flt v (fsub (quantile vs 0.25)
                                   (fmul (Some 1.5)
                                      (fsub (quantile vs 0.75) (quantile vs 0.25)))))
              vs)) in
  high_pct <- truediv (Z.of_nat num_high_outliers * 100) (Z.of_nat len_df) ;;
  low_pct <- truediv (Z.of_nat num_low_outliers * 100) (Z.of_nat len_df) ;;
  ret [("Column", VStr col);
       ("Number of High outliers", VInt (Z.of_nat num_high_outliers));
       ("Number of Low outliers", VInt (Z.of_nat num_low_outliers));
       ("High outliers %", VFloat (py_round high_pct 2));
       ("Low outliers %", VFloat (py_round low_pct 2))]%string.

(** Lines 204-215: one turn of the loop. *)
Definition count_body (df : DataFrame) (outliers : Report) (col : string) : Py Report :=
  record <- outlier_record df col ;;
  ret (append outliers record).

Definition count_outliers_per_column (df : DataFrame) : Py Report :=
  let outliers :=
    empty_report ["Column"; "Number of high outliers"; "Number of low outliers"]%string in
  for_fold (numeric_columns df) (count_body df) outliers.

(** The record [count_outliers_per_column] appends for a column (empty when
    building it fails). *)
Definition record_of (df : DataFrame) (col : string) : list (string * pyval) :=
  match outcome (outlier_record df col) with
  | inr record => record
  | inl _ => []
  end.

(** ** Reading a log *)

(** [contains needle s]: [needle] occurs in [s]. *)
Fixpoint contains (needle s : string) : bool :=
  String.prefix needle s
  || match s with
     | EmptyString => false
     | String _ t => contains needle t
     end.

Definition strings_of (args : list pyval) : list string :=
  flat_map (fun a => match a with VStr t => [t] | _ => [] end) args.

(** Every string handed to [print]. *)
Definition printed_strings (out : list event) : list string :=
  flat_map (fun e => match e with Print args => strings_of args | Draw _ _ => [] end) out.

(** ** Sample data *)

Definition no_ext : Externals :=
  {| series_std := fun _ => NaN;
     series_skew := fun _ => Some 0;
     shapiro := fun _ => inr (fl 0.9, fl 0.2) |}.

Definition frame1 (name : string) (vs : list float) : DataFrame :=
  {| index := seq 0 (List.length vs); columns := [(name, NumSeries vs)] |}.

Definition df_skewed : DataFrame :=
  frame1 "x" [Some 1; Some 2; Some 3; Some 4; Some 5; Some 100].

Definition df_constant : DataFrame :=
  frame1 "x" [Some 5; Some 5; Some 5; Some 5].

Definition df_missing : DataFrame :=
  frame1 "x" [NaN; NaN].

Definition df_no_rows : DataFrame := frame1 "x" [].

Definition df_ties : DataFrame :=
  frame1 "x" [Some 1; Some 1; Some 2; Some 2].

(** * Properties *)

(** ** Rounding to an integer *)

Lemma round_half_even_spec (x : Q) :
  Qabs (x - inject_Z (round_half_even x)) <= 1 # 2
  /\ (Qabs (x - inject_Z (round_half_even x)) == 1 # 2 ->
      Z.even (round_half_even x) = true).
Proof.
  pose proof (Qfloor_le x) as Hl.
  pose proof (Qlt_floor x) as Hu.
  rewrite inject_Z_plus in Hu. change (inject_Z 1) with 1 in Hu.
  unfold round_half_even.
  destruct (Qcompare (x - inject_Z (Qfloor x)) (1 # 2)) eqn:E.
  - apply Qeq_alt in E.
    destruct (Z.even (Qfloor x)) eqn:Ev.
    + split; [|intros _; exact Ev].
      apply Qabs_Qle_condition. lra.
    + split.
      * rewrite inject_Z_plus. change (inject_Z 1) with 1.
        apply Qabs_Qle_condition. lra.
      * intros _. change (Qfloor x + 1)%Z with (Z.succ (Qfloor x)).
        rewrite Z.even_succ, <- Z.negb_even, Ev. reflexivity.
  - apply Qlt_alt in E. split.
    + apply Qabs_Qle_condition. lra.
    + rewrite Qabs_pos by lra. intro H. exfalso. lra.
  - apply Qgt_alt in E. rewrite inject_Z_plus. change (inject_Z 1) with 1. split.
    + apply Qabs_Qle_condition. lra.
    + rewrite Qabs_neg by lra. intro H. exfalso. lra.
Qed.

Lemma round_half_even_Qeq (x y : Q) : x == y -> round_half_even x = round_half_even y.
Proof.
  intro E. unfold round_half_even.
  rewrite (Qfloor_comp x y E).
  assert (Ec : Qcompare (x - inject_Z (Qfloor y)) (1 # 2)
               = Qcompare (y - inject_Z (Qfloor y)) (1 # 2)).
  { apply Qcompare_comp; [rewrite E|]; reflexivity. }
  rewrite Ec. reflexivity.
Qed.

Lemma round_half_even_near (x : Q) :
  x - (1 # 2) <= inject_Z (round_half_even x)
  /\ inject_Z (round_half_even x) <= x + (1 # 2).
Proof.
  destruct (round_half_even_spec x) as [H _].
  apply Qabs_Qle_condition in H. split; lra.
Qed.

Lemma round_half_even_mono (x y : Q) :
  x <= y -> (round_half_even x <= round_half_even y)%Z.
Proof.
  intro Hle.
  destruct (Qeq_dec x y) as [E | NE].
  - rewrite (round_half_even_Qeq x y E). lia.
  - assert (Hlt : x < y) by (apply Qlt_leneq; split; assumption).
    destruct (round_half_even_near x) as [_ Hx].
    destruct (round_half_even_near y) as [Hy _].
    assert (H : inject_Z (round_half_even x) < inject_Z (round_half_even y + 1)).
    { rewrite inject_Z_plus. change (inject_Z 1) with 1. lra. }
    rewrite <- Zlt_Qlt in H. lia.
Qed.

Lemma round_half_even_int (k : Z) : round_half_even (inject_Z k) = k.
Proof.
  unfold round_half_even. rewrite Qfloor_Z.
  assert (E : Qcompare (inject_Z k - inject_Z k) (1 # 2) = Lt).
  { apply Qlt_alt. unfold Qminus. rewrite Qplus_opp_r. reflexivity. }
  rewrite E. reflexivity.
Qed.

(** ** Powers of two *)

Lemma pow2_pos (e : Z) : 0 < pow2 e.
Proof. apply Qpower_0_lt. reflexivity. Qed.

Lemma pow2_add (a b : Z) : pow2 (a + b) == pow2 a * pow2 b.
Proof. apply Qpower_plus. discriminate. Qed.

Lemma pow2_le (a b : Z) : (a <= b)%Z -> pow2 a <= pow2 b.
Proof. intro H. apply Qpower_le_compat_l; [exact H | discriminate]. Qed.

Lemma pow2_lt (a b : Z) : (a < b)%Z -> pow2 a < pow2 b.
Proof. intro H. apply Qpower_lt_compat_l; [exact H | reflexivity]. Qed.

Lemma pow2_lt_inv (a b : Z) : pow2 a < pow2 b -> (a < b)%Z.
Proof. intro H. apply (Qpower_lt_compat_l_inv 2); [exact H | reflexivity]. Qed.

Lemma pow2_Z (k : Z) : (0 <= k)%Z -> pow2 k == inject_Z (2 ^ k).
Proof. intro H. symmetry. apply (Zpower_Qpower 2 k H). Qed.

Lemma pow2_div (x : Q) (a b : Z) : x * pow2 a / pow2 b == x * pow2 (a - b).
Proof.
  replace a with ((a - b) + b)%Z at 1 by ring.
  rewrite pow2_add. pose proof (pow2_pos b). field. lra.
Qed.

(** ** The binade of a positive rational *)

Lemma floor_log2_spec (x : Q) :
  0 < x -> pow2 (floor_log2 x) <= x /\ x < pow2 (floor_log2 x + 1).
Proof.
  intro Hx. destruct x as [n d]. unfold floor_log2. simpl Qnum. simpl Qden.
  assert (Hn : (0 < n)%Z).
  { unfold Qlt in Hx. simpl in Hx. lia. }
  set (ln := Z.log2 n). set (ld := Z.log2 (Z.pos d)).
  destruct (Z.log2_spec n Hn) as [Hn1 Hn2]. fold ln in Hn1, Hn2.
  destruct (Z.log2_spec (Z.pos d) (Pos2Z.is_pos d)) as [Hd1 Hd2]. fold ld in Hd1, Hd2.
  assert (Hln : (0 <= ln)%Z) by apply Z.log2_nonneg.
  assert (Hld : (0 <= ld)%Z) by apply Z.log2_nonneg.
  assert (Ex : (n # d) * inject_Z (Z.pos d) == inject_Z n).
  { unfold Qeq, Qmult, inject_Z. simpl. lia. }
  assert (Qn1 : pow2 ln <= inject_Z n) by (rewrite pow2_Z, <- Zle_Qle; assumption).
  assert (Qn2 : inject_Z n < pow2 (ln + 1))
    by (rewrite pow2_Z, <- Zlt_Qlt by lia; exact Hn2).
  assert (Qd1 : pow2 ld <= inject_Z (Z.pos d)) by (rewrite pow2_Z, <- Zle_Qle; assumption).
  assert (Qd2 : inject_Z (Z.pos d) < pow2 (ld + 1))
    by (rewrite pow2_Z, <- Zlt_Qlt by lia; exact Hd2).
  pose proof (pow2_pos ld) as Pld. pose proof (pow2_pos (ld + 1)) as Pld1.
  assert (Hup : (n # d) < pow2 (ln - ld + 1)).
  { assert (E : pow2 (ln + 1) == pow2 (ln - ld + 1) * pow2 ld).
    { rewrite <- pow2_add. replace (ln - ld + 1 + ld)%Z with (ln + 1)%Z by ring.
      reflexivity. }
    pose proof (pow2_pos (ln - ld + 1)). nra. }
  assert (Hlow : pow2 (ln - ld - 1) < (n # d)).
  { assert (E : pow2 ln == pow2 (ln - ld - 1) * pow2 (ld + 1)).
    { rewrite <- pow2_add. replace (ln - ld - 1 + (ld + 1))%Z with ln by ring.
      reflexivity. }
    pose proof (pow2_pos (ln - ld - 1)). nra. }
  destruct (Qle_bool (pow2 (ln - ld)) (n # d)) eqn:T.
  - apply Qle_bool_iff in T. split; assumption.
  - assert (T' : (n # d) < pow2 (ln - ld)).
    { apply Qnot_le_lt. intro H. apply Qle_bool_iff in H. congruence. }
    replace (ln - ld - 1 + 1)%Z with (ln - ld)%Z by ring.
    split; [apply Qlt_le_weak|]; assumption.
Qed.

Lemma floor_log2_unique (x : Q) (k : Z) :
  pow2 k <= x -> x < pow2 (k + 1) -> floor_log2 x = k.
Proof.
  intros H1 H2.
  assert (Hx : 0 < x) by (pose proof (pow2_pos k); lra).
  destruct (floor_log2_spec x Hx) as [S1 S2].
  assert (A : (floor_log2 x < k + 1)%Z) by (apply pow2_lt_inv; lra).
  assert (B : (k < floor_log2 x + 1)%Z) by (apply pow2_lt_inv; lra).
  lia.
Qed.

Lemma floor_log2_mono (x y : Q) :
  0 < x -> x <= y -> (floor_log2 x <= floor_log2 y)%Z.
Proof.
  intros Hx Hle.
  destruct (floor_log2_spec x Hx) as [S1 _].
  destruct (floor_log2_spec y) as [_ T2]; [lra|].
  assert (A : (floor_log2 x < floor_log2 y + 1)%Z) by (apply pow2_lt_inv; lra).
  lia.
Qed.

Lemma exponent_mono (x y : Q) : 0 < x -> x <= y -> (exponent x <= exponent y)%Z.
Proof.
  intros Hx Hle. unfold exponent.
  pose proof (floor_log2_mono x y Hx Hle). lia.
Qed.

Lemma exponent_Qeq (x y : Q) : 0 < x -> x == y -> exponent x = exponent y.
Proof.
  intros Hx E. unfold exponent. f_equal. f_equal.
  destruct (floor_log2_spec x Hx) as [S1 S2].
  symmetry. apply floor_log2_unique; rewrite <- E; assumption.
Qed.

(** ** The nearest double of a positive rational *)

Lemma nearest_Qeq (x y : Q) : 0 < x -> x == y -> nearest x == nearest y.
Proof.
  intros Hx E. unfold nearest. rewrite <- (exponent_Qeq x y Hx E).
  rewrite (round_half_even_Qeq (x / pow2 (exponent x)) (y / pow2 (exponent x))).
  - reflexivity.
  - unfold Qdiv. apply Qmult_comp; [exact E | reflexivity].
Qed.

Lemma nearest_nonneg (x : Q) : 0 <= x -> 0 <= nearest x.
Proof.
  intro Hx. unfold nearest.
  pose proof (pow2_pos (exponent x)) as Hp.
  assert (H : (0 <= round_half_even (x / pow2 (exponent x)))%Z).
  { rewrite <- (round_half_even_int 0). apply round_half_even_mono.
    apply Qle_shift_div_l; [exact Hp | change (inject_Z 0) with 0; lra]. }
  rewrite Zle_Qle in H. change (inject_Z 0) with 0 in H. nra.
Qed.

(** Below the top of its binade a value rounds to at most that top, and
    from the bottom of a normal binade upwards to at least that bottom. *)
Lemma nearest_upper (x : Q) :
  0 < x -> nearest x <= pow2 (exponent x + 53).
Proof.
  intro Hx. unfold nearest.
  set (e := exponent x).
  pose proof (pow2_pos e) as Hp.
  destruct (floor_log2_spec x Hx) as [_ S2].
  assert (Hb : x <= pow2 (e + 53)).
  { apply Qlt_le_weak. eapply Qlt_le_trans; [exact S2|].
    apply pow2_le. subst e. unfold exponent. lia. }
  assert (H : (round_half_even (x / pow2 e) <= 2 ^ 53)%Z).
  { rewrite <- (round_half_even_int (2 ^ 53)). apply round_half_even_mono.
    apply Qle_shift_div_r; [exact Hp|].
    rewrite <- pow2_Z by lia. rewrite <- pow2_add.
    replace (53 + e)%Z with (e + 53)%Z by ring. exact Hb. }
  rewrite Zle_Qle in H. rewrite <- pow2_Z in H by lia.
  rewrite pow2_add. rewrite (Qmult_comm (pow2 e)).
  apply Qmult_le_compat_r; [exact H | lra].
Qed.

Lemma nearest_lower (x : Q) :
  0 < x -> (-1074 < exponent x)%Z -> pow2 (exponent x + 52) <= nearest x.
Proof.
  intros Hx He. unfold nearest.
  set (e := exponent x) in *.
  pose proof (pow2_pos e) as Hp.
  destruct (floor_log2_spec x Hx) as [S1 _].
  assert (Ee : floor_log2 x = (e + 52)%Z) by (subst e; unfold exponent in *; lia).
  rewrite Ee in S1.
  assert (H : (2 ^ 52 <= round_half_even (x / pow2 e))%Z).
  { rewrite <- (round_half_even_int (2 ^ 52)) at 1. apply round_half_even_mono.
    apply Qle_shift_div_l; [exact Hp|].
    rewrite <- pow2_Z by lia. rewrite <- pow2_add.
    replace (52 + e)%Z with (e + 52)%Z by ring. exact S1. }
  rewrite Zle_Qle in H. rewrite <- pow2_Z in H by lia.
  rewrite pow2_add. rewrite (Qmult_comm (pow2 e)).
  apply Qmult_le_compat_r; [exact H | lra].
Qed.

Lemma nearest_mono (x y : Q) : 0 < x -> x <= y -> nearest x <= nearest y.
Proof.
  intros Hx Hle.
  assert (Hy : 0 < y) by lra.
  pose proof (exponent_mono x y Hx Hle) as He.
  destruct (Z.eq_dec (exponent x) (exponent y)) as [E | NE].
  - unfold nearest. rewrite <- E.
    pose proof (pow2_pos (exponent x)) as Hp.
    assert (H : (round_half_even (x / pow2 (exponent x))
                 <= round_half_even (y / pow2 (exponent x)))%Z).
    { apply round_half_even_mono.
      apply Qmult_le_compat_r; [exact Hle|].
      apply Qlt_le_weak, Qinv_lt_0_compat, Hp. }
    rewrite Zle_Qle in H.
    apply Qmult_le_compat_r; [exact H | lra].
  - eapply Qle_trans; [apply nearest_upper, Hx|].
    eapply Qle_trans; [|apply nearest_lower; [exact Hy|]].
    + apply pow2_le. lia.
    + unfold exponent in *. lia.
Qed.

(** A value on the grid of its own binade is a double. *)
Lemma nearest_on_grid (v : Q) (m e : Z) :
  0 < v -> v == inject_Z m * pow2 e -> (exponent v <= e)%Z -> nearest v == v.
Proof.
  intros Hv Ev He. unfold nearest.
  set (e' := exponent v) in *.
  assert (Ed : v / pow2 e' == inject_Z (m * 2 ^ (e - e'))).
  { rewrite Ev, pow2_div, inject_Z_mult, <- pow2_Z by lia. reflexivity. }
  rewrite (round_half_even_Qeq _ _ Ed), round_half_even_int.
  rewrite <- Ed. pose proof (pow2_pos e'). field. lra.
Qed.

Lemma nearest_idem (x : Q) : 0 < x -> 0 < nearest x -> nearest (nearest x) == nearest x.
Proof.
  intros Hx Hv.
  set (e := exponent x).
  set (m := round_half_even (x / pow2 e)).
  assert (Ev : nearest x == inject_Z m * pow2 e) by reflexivity.
  pose proof (nearest_upper x Hx) as Hup. fold e in Hup.
  destruct (Qlt_le_dec (nearest x) (pow2 (e + 53))) as [Hlt | Hge].
  - apply (nearest_on_grid _ m e Hv Ev).
    destruct (floor_log2_spec (nearest x) Hv) as [S1 _].
    assert (A : (floor_log2 (nearest x) < e + 53)%Z) by (apply pow2_lt_inv; lra).
    assert (B : (-1074 <= e)%Z) by (subst e; unfold exponent; lia).
    unfold exponent. lia.
  - assert (Etop : nearest x == pow2 (e + 53)) by (apply Qle_antisym; assumption).
    assert (Efl : floor_log2 (nearest x) = (e + 53)%Z).
    { apply floor_log2_unique; rewrite Etop; [apply Qle_refl | apply pow2_lt; lia]. }
    assert (B : (-1074 <= e)%Z) by (subst e; unfold exponent; lia).
    apply (nearest_on_grid _ (2 ^ 52) (e + 1) Hv).
    + rewrite Etop, <- pow2_Z, <- pow2_add by lia.
      replace (52 + (e + 1))%Z with (e + 53)%Z by ring. reflexivity.
    + unfold exponent. rewrite Efl. lia.
Qed.

(** The nearest double is on the grid of the binade, within half a unit
    of the last place, and has an even mantissa on a tie. *)
Lemma nearest_spec (x : Q) :
  0 < x ->
  let e := exponent x in
  let m := round_half_even (x / pow2 e) in
  nearest x == inject_Z m * pow2 e
  /\ (0 <= m <= 2 ^ 53)%Z
  /\ Qabs (x - nearest x) <= (1 # 2) * pow2 e
  /\ (Qabs (x - nearest x) == (1 # 2) * pow2 e -> Z.even m = true).
Proof.
  intros Hx e m.
  pose proof (pow2_pos e) as Hp.
  assert (Ed : x - nearest x == (x / pow2 e - inject_Z m) * pow2 e).
  { unfold nearest. fold e. fold m. field. lra. }
  assert (Ea : Qabs (x - nearest x) == Qabs (x / pow2 e - inject_Z m) * pow2 e).
  { rewrite Ed, Qabs_Qmult, (Qabs_pos (pow2 e)) by lra. reflexivity. }
  destruct (round_half_even_spec (x / pow2 e)) as [Hn Ht]. fold m in Hn, Ht.
  split; [reflexivity | split; [|split]].
  - split.
    + pose proof (nearest_nonneg x (Qlt_le_weak _ _ Hx)) as H0.
      unfold nearest in H0. fold e in H0. fold m in H0.
      destruct (Z_lt_le_dec m 0) as [Hneg | Hpos]; [|exact Hpos].
      exfalso. assert (Hm : inject_Z m <= -1).
      { change (-1) with (inject_Z (-1)). rewrite <- Zle_Qle. lia. }
      nra.
    + pose proof (nearest_upper x Hx) as Hup.
      unfold nearest in Hup. fold e in Hup. fold m in Hup.
      rewrite pow2_add in Hup.
      assert (Hm : inject_Z m <= pow2 53).
      { apply Qmult_le_r with (z := pow2 e); [exact Hp|].
        rewrite (Qmult_comm (pow2 53)). exact Hup. }
      rewrite pow2_Z in Hm by lia. rewrite <- Zle_Qle in Hm. exact Hm.
  - rewrite Ea. apply Qmult_le_compat_r; [exact Hn | lra].
  - intro H. apply Ht. rewrite Ea in H.
    apply Qmult_inj_r with (z := pow2 e); [lra | exact H].
Qed.

(** ** Rounding to binary64 *)

Lemma b64_Qeq (x y : Q) : x == y -> b64 x = b64 y.
Proof.
  intro E. unfold b64.
  rewrite (Qcompare_comp x y E 0 0 (Qeq_refl 0)).
  assert (E1 : Qred x = Qred y) by (apply Qred_complete, E).
  assert (E2 : Qred (- x) = Qred (- y)) by (apply Qred_complete; rewrite E; reflexivity).
  rewrite E1, E2. reflexivity.
Qed.

Lemma b64_0 : b64 0 = 0.
Proof. reflexivity. Qed.

Lemma b64_pos (x : Q) : 0 < x -> b64 x == nearest x.
Proof.
  intro Hx. unfold b64.
  assert (E : Qcompare x 0 = Gt) by (apply Qgt_alt; exact Hx).
  rewrite E, Qred_correct.
  symmetry. apply nearest_Qeq; [exact Hx | symmetry; apply Qred_correct].
Qed.

Lemma b64_neg (x : Q) : x < 0 -> b64 x == - nearest (- x).
Proof.
  intro Hx. unfold b64.
  assert (E : Qcompare x 0 = Lt) by (apply Qlt_alt; exact Hx).
  rewrite E, Qred_correct.
  apply Qopp_comp.
  symmetry. apply nearest_Qeq; [lra | symmetry; apply Qred_correct].
Qed.

Lemma b64_zero (x : Q) : x == 0 -> b64 x = 0.
Proof. intro E. rewrite (b64_Qeq x 0 E). reflexivity. Qed.

Lemma b64_sign (x : Q) : (0 <= x -> 0 <= b64 x) /\ (x <= 0 -> b64 x <= 0).
Proof.
  destruct (Q_dec x 0) as [[Hn | Hp] | Hz].
  - rewrite (b64_neg x Hn).
    pose proof (nearest_nonneg (- x)). split; intro; lra.
  - rewrite (b64_pos x Hp).
    pose proof (nearest_nonneg x). split; intro; lra.
  - rewrite (b64_zero x Hz). split; intro; lra.
Qed.

Lemma b64_mono (x y : Q) : x <= y -> b64 x <= b64 y.
Proof.
  intro Hle.
  destruct (Q_dec x 0) as [[Hxn | Hxp] | Hxz].
  - destruct (Qlt_le_dec y 0) as [Hyn | Hyp].
    + rewrite (b64_neg x Hxn), (b64_neg y Hyn).
      assert (H : nearest (- y) <= nearest (- x)) by (apply nearest_mono; lra).
      lra.
    + destruct (b64_sign x) as [_ Hx]. destruct (b64_sign y) as [Hy _].
      specialize (Hx (Qlt_le_weak _ _ Hxn)). specialize (Hy Hyp). lra.
  - rewrite (b64_pos x Hxp), (b64_pos y) by lra.
    apply nearest_mono; assumption.
  - rewrite (b64_zero x Hxz).
    destruct (b64_sign y) as [Hy _]. apply Hy. lra.
Qed.

Lemma b64_canonical (x : Q) : Qred (b64 x) = b64 x.
Proof.
  unfold b64. destruct (Qcompare x 0); [reflexivity | |];
    apply Qred_complete, Qred_correct.
Qed.

Lemma b64_idem (x : Q) : b64 (b64 x) = b64 x.
Proof.
  assert (Hq : b64 (b64 x) == b64 x).
  { destruct (Q_dec x 0) as [[Hn | Hp] | Hz].
    - pose proof (nearest_nonneg (- x)) as H0.
      destruct (Qlt_le_dec 0 (nearest (- x))) as [Hv | Hv].
      + assert (Hb : b64 x < 0) by (rewrite (b64_neg x Hn); lra).
        rewrite (b64_neg (b64 x) Hb).
        assert (E : - b64 x == nearest (- x)) by (rewrite (b64_neg x Hn); ring).
        rewrite (nearest_Qeq (- b64 x) (nearest (- x))) by (try rewrite E; lra || exact E).
        rewrite nearest_idem by lra.
        rewrite (b64_neg x Hn). reflexivity.
      + assert (E : b64 x == 0) by (rewrite (b64_neg x Hn); lra).
        rewrite (b64_zero _ E). symmetry. exact E.
    - pose proof (nearest_nonneg x) as H0.
      destruct (Qlt_le_dec 0 (nearest x)) as [Hv | Hv].
      + assert (Hb : 0 < b64 x) by (rewrite (b64_pos x Hp); lra).
        rewrite (b64_pos (b64 x) Hb).
        rewrite (nearest_Qeq (b64 x) (nearest x) Hb (b64_pos x Hp)).
        rewrite nearest_idem by lra.
        symmetry. apply b64_pos, Hp.
      + assert (E : b64 x == 0) by (rewrite (b64_pos x Hp); lra).
        rewrite (b64_zero _ E). symmetry. exact E.
    - rewrite (b64_zero x Hz). reflexivity. }
  transitivity (Qred (b64 (b64 x))); [symmetry; apply b64_canonical|].
  transitivity (Qred (b64 x)); [apply Qred_complete, Hq | apply b64_canonical].
Qed.

Set Warnings "-inexact-float".

(** [b64] agrees with the kernel's binary64 numbers on sample literals,
    among them inexact decimals, a tie of the mantissa and subnormals. *)
Lemma b64_agrees_with_kernel :
  forallb (fun xf => Qeq_bool (b64 (fst xf)) (value_of (snd xf)))
    [(0.1, 0.1%float); (0.05, 0.05%float); (0.2, 0.2%float); (0.01, 0.01%float);
     (1 # 3, (1 / 3)%float); (50 # 3, (100 / 6)%float); (16.67, 16.67%float);
     (0.005, 0.005%float); (2.675, 2.675%float); (-0.3, (-0.3)%float);
     (2.25, 2.25%float); (9007199254740993, 9007199254740993%float);
     (1e-320, 1e-320%float); (4.9e-324, 4.9e-324%float); (1e300, 1e300%float)]
  = true.
Proof. vm_compute. reflexivity. Qed.

(** Exact sum, difference, product and quotient of two doubles, rounded by
    [b64], are the kernel's results on sample operands. *)
Lemma b64_arithmetic_agrees_with_kernel :
  forallb (fun ab =>
             let a := fst ab in
             let b := snd ab in
             Qeq_bool (b64 (value_of a + value_of b)) (value_of (a + b)%float)
             && Qeq_bool (b64 (value_of a - value_of b)) (value_of (a - b)%float)
             && Qeq_bool (b64 (value_of a * value_of b)) (value_of (a * b)%float)
             && Qeq_bool (b64 (value_of a / value_of b)) (value_of (a / b)%float))
    [(0.1, 0.2); (4.75, 2.25); (1.5, 2.5); (100, 6); (1, 20000); (16.67, 3);
     (-0.3, 0.7); (1e-310, 3); (123456789.123, 0.001)]%float
  = true.
Proof. vm_compute. reflexivity. Qed.

(** ** Comparisons *)


Lemma Qltb_lt (x y : Q) : Qltb x y = true <-> x < y.
Proof.
  unfold Qltb. rewrite negb_true_iff. split; intro H.
  - apply Qnot_le_lt. intro Hle. apply Qle_bool_iff in Hle. congruence.
  - destruct (Qle_bool y x) eqn:E; [|reflexivity].
    apply Qle_bool_iff in E. exfalso. apply (Qlt_not_le _ _ H E).
Qed.

Lemma Qltb_ge (x y : Q) : Qltb x y = false <-> y <= x.
Proof.
  unfold Qltb. rewrite negb_false_iff. apply Qle_bool_iff.
Qed.

Lemma flt_lt (x y : Q) : flt (Some x) (Some y) = true <-> x < y.
Proof. apply Qltb_lt. Qed.

Lemma fgt_gt (x y : Q) : fgt (Some x) (Some y) = true <-> y < x.
Proof. apply Qltb_lt. Qed.

Lemma fle_le (x y : Q) : fle (Some x) (Some y) = true <-> x <= y.
Proof. apply Qle_bool_iff. Qed.

Lemma fge_ge (x y : Q) : fge (Some x) (Some y) = true <-> y <= x.
Proof. apply Qle_bool_iff. Qed.

Lemma flt_NaN_r (a : float) : flt a NaN = false.
Proof. destruct a; reflexivity. Qed.

Lemma fl_eq (x y : Q) : x == y -> fl x = fl y.
Proof. intro H. unfold fl. f_equal. apply b64_Qeq, H. Qed.

(** ** Sorting *)

Section SortingFacts.
Variable A : Type.
Variable leb : A -> A -> bool.
Hypothesis leb_total : forall x y, leb x y = true \/ leb y x = true.
Hypothesis leb_trans : forall x y z, leb x y = true -> leb y z = true -> leb x z = true.

Let le (x y : A) : Prop := leb x y = true.

Lemma insert_sorted_perm (x : A) (l : list A) :
  Permutation (x :: l) (insert_sorted leb x l).
Proof.
  induction l as [|y t IH]; simpl.
  - apply Permutation_refl.
  - destruct (leb x y).
    + apply Permutation_refl.
    + eapply perm_trans; [apply perm_swap|]. apply perm_skip, IH.
Qed.

Lemma sort_values_perm (l : list A) : Permutation l (sort_values leb l).
Proof.
  induction l as [|x t IH]; simpl.
  - apply perm_nil.
  - eapply perm_trans; [apply perm_skip, IH | apply insert_sorted_perm].
Qed.

Lemma sort_values_length (l : list A) :
  List.length (sort_values leb l) = List.length l.
Proof. symmetry. apply Permutation_length, sort_values_perm. Qed.

Lemma sort_values_in (l : list A) (x : A) :
  In x (sort_values leb l) <-> In x l.
Proof.
  split; apply Permutation_in;
    [apply Permutation_sym|]; apply sort_values_perm.
Qed.

Lemma insert_sorted_sorted (x : A) (l : list A) :
  StronglySorted le l -> StronglySorted le (insert_sorted leb x l).
Proof.
  induction 1 as [|y t Ht IH Hy]; simpl.
  - repeat constructor.
  - destruct (leb x y) eqn:E.
    + constructor; [constructor; assumption|].
      constructor; [exact E|].
      rewrite Forall_forall in *. intros z Hz.
      eapply leb_trans; [exact E | apply Hy, Hz].
    + constructor; [exact IH|].
      assert (Hyx : le y x) by (destruct (leb_total x y); [congruence | assumption]).
      rewrite Forall_forall in *. intros z Hz.
      apply (Permutation_in _ (Permutation_sym (insert_sorted_perm x t))) in Hz.
      destruct Hz as [<- | Hz]; [exact Hyx | apply Hy, Hz].
Qed.

Lemma sort_values_sorted (l : list A) : StronglySorted le (sort_values leb l).
Proof.
  induction l as [|x t IH]; simpl.
  - constructor.
  - apply insert_sorted_sorted, IH.
Qed.

(** The first value of a sorted column is below every value. *)
Lemma sort_values_head (l : list A) (m : A) (t : list A) :
  sort_values leb l = m :: t -> forall v, In v l -> leb m v = true.
Proof.
  intros E v Hv.
  pose proof (sort_values_sorted l) as Hs. rewrite E in Hs.
  apply sort_values_in in Hv. rewrite E in Hv.
  inversion Hs as [|? ? _ Hall]; subst.
  destruct Hv as [<- | Hv].
  - destruct (leb_total m m); assumption.
  - rewrite Forall_forall in Hall. apply Hall, Hv.
Qed.

Lemma sorted_nth (l : list A) (d : A) :
  StronglySorted le l ->
  forall i j, (i <= j)%nat -> (j < List.length l)%nat ->
    leb (nth i l d) (nth j l d) = true.
Proof.
  induction 1 as [|x t Ht IH Hx]; intros i j Hij Hj; simpl in Hj.
  - lia.
  - destruct i as [|i], j as [|j]; simpl.
    + destruct (leb_total x x); assumption.
    + rewrite Forall_forall in Hx. apply Hx, nth_In. lia.
    + lia.
    + apply IH; lia.
Qed.
End SortingFacts.

Lemma Qle_bool_total (x y : Q) : Qle_bool x y = true \/ Qle_bool y x = true.
Proof.
  rewrite !Qle_bool_iff.
  destruct (Qlt_le_dec x y) as [H|H]; [left; apply Qlt_le_weak, H | right; exact H].
Qed.

Lemma Qle_bool_trans (x y z : Q) :
  Qle_bool x y = true -> Qle_bool y z = true -> Qle_bool x z = true.
Proof. rewrite !Qle_bool_iff. apply Qle_trans. Qed.

Lemma sorted_column_nth (l : list Q) (i j : nat) :
  (i <= j)%nat -> (j < List.length l)%nat ->
  nth i (sort_values Qle_bool l) 0 <= nth j (sort_values Qle_bool l) 0.
Proof.
  intros Hij Hj. apply Qle_bool_iff.
  apply sorted_nth;
    [ apply Qle_bool_total
    | apply sort_values_sorted; [apply Qle_bool_total | apply Qle_bool_trans]
    | exact Hij
    | rewrite sort_values_length; exact Hj ].
Qed.

(** ** Quantiles *)

Lemma sort_values_ordered (l : list Q) : ordered (sort_values Qle_bool l).
Proof.
  intros i j Hij Hj. rewrite sort_values_length in Hj.
  apply sorted_column_nth; assumption.
Qed.

Section Interpolation.
Variable a : list Q.
Hypothesis a_ordered : ordered a.

Let top : Q := inject_Z (Z.of_nat (List.length a) - 1).

Lemma floor_in_range (pos : Q) :
  0 <= pos -> pos <= top ->
  (0 <= Qfloor pos <= Z.of_nat (List.length a) - 1)%Z.
Proof.
  intros H0 H1. split.
  - change 0%Z with (Qfloor 0). apply Qfloor_resp_le, H0.
  - rewrite <- (Qfloor_Z (Z.of_nat (List.length a) - 1)).
    apply Qfloor_resp_le, H1.
Qed.

Lemma frac_in_range (pos : Q) :
  0 <= pos - inject_Z (Qfloor pos) /\ pos - inject_Z (Qfloor pos) <= 1.
Proof.
  pose proof (Qfloor_le pos) as Hl.
  pose proof (Qlt_floor pos) as Hu.
  rewrite inject_Z_plus in Hu. change (inject_Z 1) with 1 in Hu.
  split; lra.
Qed.

(** The interpolated value lies between the two closest ranks. *)
Lemma interpolate_between (pos : Q) :
  0 <= pos -> pos <= top ->
  nth (Z.to_nat (Qfloor pos)) a 0 <= interpolate a pos
  /\ interpolate a pos
     <= nth (Nat.min (Z.to_nat (Qfloor pos) + 1) (List.length a - 1)) a 0.
Proof.
  intros H0 H1.
  destruct (floor_in_range pos H0 H1) as [Hf0 Hf1].
  destruct (frac_in_range pos) as [Hg0 Hg1].
  unfold interpolate.
  set (j := Z.to_nat (Qfloor pos)).
  set (g := pos - inject_Z (Qfloor pos)) in *.
  assert (Hlohi : nth j a 0 <= nth (Nat.min (j + 1) (List.length a - 1)) a 0).
  { apply a_ordered; subst j; lia. }
  set (lo := nth j a 0) in *.
  set (hi := nth (Nat.min (j + 1) (List.length a - 1)) a 0) in *.
  split; nra.
Qed.

(** The interpolated value grows with the virtual index. *)
Lemma interpolate_mono (pos pos' : Q) :
  0 <= pos -> pos <= pos' -> pos' <= top ->
  interpolate a pos <= interpolate a pos'.
Proof.
  intros H0 Hle H1.
  assert (H0' : 0 <= pos') by lra.
  assert (H1' : pos <= top) by lra.
  destruct (floor_in_range pos H0 H1') as [Hf0 Hf1].
  destruct (floor_in_range pos' H0' H1) as [Hf0' Hf1'].
  pose proof (Qfloor_resp_le pos pos' Hle) as Hfl.
  destruct (Z.eq_dec (Qfloor pos) (Qfloor pos')) as [E | NE].
  - destruct (frac_in_range pos) as [Hg0 _].
    unfold interpolate. rewrite <- E.
    set (j := Z.to_nat (Qfloor pos)).
    assert (Hlohi : nth j a 0 <= nth (Nat.min (j + 1) (List.length a - 1)) a 0).
    { apply a_ordered; subst j; lia. }
    set (lo := nth j a 0) in *.
    set (hi := nth (Nat.min (j + 1) (List.length a - 1)) a 0) in *.
    set (f := inject_Z (Qfloor pos)) in *.
    nra.
  - destruct (interpolate_between pos H0 H1') as [_ Hup].
    destruct (interpolate_between pos' H0' H1) as [Hlow _].
    eapply Qle_trans; [exact Hup|].
    eapply Qle_trans; [|exact Hlow].
    apply a_ordered; lia.
Qed.
End Interpolation.

Lemma quantile_value (vs : list float) (q : Q) :
  dropna vs <> [] ->
  quantile vs q =
  fl (interpolate (sort_values Qle_bool (dropna vs))
        (inject_Z (Z.of_nat (List.length (dropna vs)) - 1) * q)).
Proof.
  intro Hne. unfold quantile.
  rewrite <- (sort_values_length Q Qle_bool (dropna vs)).
  destruct (sort_values Qle_bool (dropna vs)) eqn:E; [|reflexivity].
  exfalso. apply Hne.
  apply (f_equal (@List.length Q)) in E. rewrite sort_values_length in E.
  destruct (dropna vs); [reflexivity | discriminate].
Qed.

Lemma quantile_empty (vs : list float) (q : Q) :
  dropna vs = [] -> quantile vs q = NaN.
Proof. intro E. unfold quantile. rewrite E. reflexivity. Qed.

Lemma interpolate_Qeq (a : list Q) (p p' : Q) :
  p == p' -> interpolate a p == interpolate a p'.
Proof.
  intro E. unfold interpolate.
  assert (Ef : Qfloor p = Qfloor p').
  { apply Z.le_antisymm; apply Qfloor_resp_le; rewrite E; apply Qle_refl. }
  rewrite Ef, E. reflexivity.
Qed.

Lemma quantile_Qeq (vs : list float) (q q' : Q) :
  q == q' -> quantile vs q = quantile vs q'.
Proof.
  intro E. unfold quantile.
  destruct (sort_values Qle_bool (dropna vs)); [reflexivity|].
  apply fl_eq, interpolate_Qeq. rewrite E. reflexivity.
Qed.

(** The quantile grows with the requested fraction. *)
Lemma quantile_mono (vs : list float) (q q' : Q) :
  dropna vs <> [] -> 0 <= q -> q <= q' -> q' <= 1 ->
  exists x x',
    quantile vs q = Some x /\ quantile vs q' = Some x'
    /\ b64 x = x /\ b64 x' = x' /\ x <= x'.
Proof.
  intros Hne H0 Hle H1.
  rewrite !quantile_value by assumption.
  set (a := sort_values Qle_bool (dropna vs)).
  set (n1 := inject_Z (Z.of_nat (List.length (dropna vs)) - 1)).
  assert (Hn : 0 <= n1).
  { subst n1. change 0 with (inject_Z 0). rewrite <- Zle_Qle.
    destruct (dropna vs); [congruence | simpl List.length; lia]. }
  exists (b64 (interpolate a (n1 * q))), (b64 (interpolate a (n1 * q'))).
  split; [reflexivity | split; [reflexivity|]].
  split; [apply b64_idem | split; [apply b64_idem|]].
  apply b64_mono.
  apply interpolate_mono.
  - apply sort_values_ordered.
  - nra.
  - nra.
  - subst a n1. rewrite sort_values_length. nra.
Qed.

(** ** Running the continuous study *)

Lemma skew_verdict_returns (s : float) : outcome (skew_verdict s) = inr tt.
Proof.
  unfold skew_verdict.
  repeat match goal with
         | |- context [if ?b then _ else _] => destruct b
         end; reflexivity.
Qed.

Lemma gaussian_verdict_returns (p : float) : outcome (gaussian_verdict p) = inr tt.
Proof. unfold gaussian_verdict. destruct (fgt p (fl 0.05)); reflexivity. Qed.

Lemma mask_or_map {A : Type} (f g : A -> bool) (l : list A) :
  mask_or (map f l) (map g l) = map (fun v => f v || g v) l.
Proof. induction l; simpl; congruence. Qed.

Lemma mask_filter_map {A : Type} (f : A -> bool) (l : list A) :
  mask_filter (map f l) l = filter f l.
Proof.
  induction l as [|x t IH]; simpl; [reflexivity|].
  destruct (f x); rewrite IH; reflexivity.
Qed.

Lemma mask_filter_combine {A B : Type} (f : B -> bool) (l : list A) (vs : list B) :
  mask_filter (map f vs) l = map fst (filter (fun rv => f (snd rv)) (combine l vs)).
Proof.
  revert l. induction vs as [|v t IH]; intros [|x l]; simpl; try reflexivity.
  destruct (f v); simpl; rewrite IH; reflexivity.
Qed.

Lemma lookup_map_snd {V W : Type} (f : V -> W) (k : string) (l : list (string * V)) :
  lookup k (map (fun c => (fst c, f (snd c))) l) = option_map f (lookup k l).
Proof.
  induction l as [|[k' v] t IH]; simpl; [reflexivity|].
  destruct (String.eqb k k'); [reflexivity | exact IH].
Qed.

(** The studied column of [df[mask]] holds the values the mask keeps. *)
Lemma getitem_mask_column (df : DataFrame) (col : string) (vs : list float)
    (f : float -> bool) :
  lookup col (columns df) = Some (NumSeries vs) ->
  lookup col (columns (getitem_mask df (map f vs))) = Some (NumSeries (filter f vs)).
Proof.
  intro H. unfold getitem_mask. simpl columns.
  rewrite lookup_map_snd, H. simpl. rewrite mask_filter_map. reflexivity.
Qed.

(** The rows of [df[mask]] are the rows whose value passes the test. *)
Lemma getitem_mask_index (df : DataFrame) (vs : list float) (f : float -> bool) :
  index (getitem_mask df (map f vs))
  = map fst (filter (fun rv => f (snd rv)) (combine (index df) vs)).
Proof. apply mask_filter_combine. Qed.

Lemma mask_filter_length {A : Type} (mask : list bool) (l : list A) :
  List.length mask = List.length l ->
  List.length (mask_filter mask l) = List.length (filter (fun b => b) mask).
Proof.
  revert l. induction mask as [|b m IH]; intros [|x t] E; simpl in *;
    try reflexivity; try discriminate.
  injection E as E. destruct b; simpl; rewrite (IH t E); reflexivity.
Qed.

Lemma filter_id_map {A : Type} (f : A -> bool) (l : list A) :
  List.length (filter (fun b => b) (map f l)) = List.length (filter f l).
Proof.
  induction l as [|x t IH]; simpl; [reflexivity|].
  destruct (f x); simpl; rewrite IH; reflexivity.
Qed.

Lemma wf_frame_column (df : DataFrame) (col : string) (s : Series) :
  wf_frame df = true -> lookup col (columns df) = Some s ->
  series_len s = len df.
Proof.
  unfold wf_frame. rewrite andb_true_iff. intros [_ H].
  rewrite forallb_forall in H.
  induction (columns df) as [|[k v] t IH]; simpl; [discriminate|].
  destruct (String.eqb col k).
  - intro E. injection E as <-. apply Nat.eqb_eq. apply (H (k, v)). left. reflexivity.
  - apply IH. intros c Hc. apply H. right. exact Hc.
Qed.

(** In a well-formed frame, the number of selected rows is the number of
    values passing the test. *)
Lemma len_getitem_mask (df : DataFrame) (col : string) (vs : list float)
    (f : float -> bool) :
  wf_frame df = true -> lookup col (columns df) = Some (NumSeries vs) ->
  len (getitem_mask df (map f vs)) = List.length (filter f vs).
Proof.
  intros Hwf H. apply (wf_frame_column df col _ Hwf) in H. simpl in H.
  unfold len, getitem_mask. simpl index.
  rewrite mask_filter_length by (rewrite length_map; exact H).
  apply filter_id_map.
Qed.

Opaque quantile fsub fadd fmul flt fgt series_mean series_median py_round
  getitem_mask fl.

Ltac split_verdicts :=
  repeat match goal with
  | |- context [skew_verdict ?s] =>
      let o := fresh "os" in
      let r := fresh "rs" in
      let E := fresh "Eskew" in
      let E' := fresh "Hskew" in
      pose proof (skew_verdict_returns s) as E;
      destruct (skew_verdict s) as [o r] eqn:E'; cbn in E; subst r
  | |- context [gaussian_verdict ?s] =>
      let o := fresh "og" in
      let r := fresh "rg" in
      let E := fresh "Egauss" in
      let E' := fresh "Hgauss" in
      pose proof (gaussian_verdict_returns s) as E;
      destruct (gaussian_verdict s) as [o r] eqn:E'; cbn in E; subst r
  end.

(** Case analysis on membership in a log. *)
Ltac split_in :=
  repeat match goal with
  | H : False |- _ => destruct H
  | H : _ \/ _ |- _ => destruct H as [H | H]
  | H : In _ (_ ++ _) |- _ => apply in_app_or in H
  | H : In _ (_ :: _) |- _ => destruct H as [H | H]
  | H : In _ [] |- _ => destruct H
  | H : Print _ = Print _ |- _ => discriminate H
  | H : Draw _ _ = Print _ |- _ => discriminate H
  end.

Ltac unfold_study H :=
  cbv zeta;
  unfold study_column_continuous, print_mean_median_std, num_col, getitem,
    truediv, when;
  rewrite H.

Ltac split_study :=
  cbn; split_verdicts;
  repeat match goal with
  | |- context [match shapiro ?e ?v with _ => _ end] =>
      destruct (shapiro e v) as [? | [? ?]] eqn:?; cbn; split_verdicts
  | |- context [if ?b then _ else _] => destruct b eqn:?; cbn
  end;
  cbn.

(** Finds an event in a log built from conses and appends. *)
Ltac find_in :=
  match goal with
  | H : In ?e ?l |- In ?e ?l => exact H
  | |- In _ (_ :: _) => first [apply in_eq | apply in_cons; find_in]
  | |- In _ (_ ++ _) => apply in_or_app; first [left; find_in | right; find_in]
  | |- _ = _ => reflexivity
  | |- _ \/ _ => first [left; find_in | right; find_in]
  end.

Section ContinuousRun.
Variable ext : Externals.
Variables (df : DataFrame) (col : string).
Variables print_stats plot skew gaussian_test : bool.

Let run : Py DataFrame :=
  study_column_continuous ext df col print_stats plot skew gaussian_test.

Lemma study_continuous_missing :
  lookup col (columns df) = None -> run = ([], inl KeyError).
Proof.
  intro H. subst run. unfold_study H.
  destruct print_stats; reflexivity.
Qed.

Lemma study_continuous_object (vs : list (option string)) :
  lookup col (columns df) = Some (ObjSeries vs) -> run = ([], inl TypeError).
Proof.
  intro H. subst run. unfold_study H.
  destruct print_stats; reflexivity.
Qed.

Variable vs : list float.
Hypothesis Hcol : lookup col (columns df) = Some (NumSeries vs).

Let q1 : float := quantile vs (1 # 4).
Let q2 : float := quantile vs (2 # 4).
Let q3 : float := quantile vs (3 # 4).
Let iqr : float := fsub q3 q1.
Let lowerBound : float := fsub q1 (fmul (Some 1.5) iqr).
Let upperBound : float := fadd q3 (fmul (Some 1.5) iqr).
Let outliers : DataFrame :=
  getitem_mask df (map (fun v => flt v lowerBound || fgt v upperBound) vs).

Lemma study_continuous_prints :
  In (Print [VStr "Quantile "; VInt 1; VStr " for "; VStr col; VStr " is "; VFloat q1])
     (output run)
  /\ In (Print [VStr "Quantile "; VInt 2; VStr " for "; VStr col; VStr " is "; VFloat q2])
       (output run)
  /\ In (Print [VStr "Quantile "; VInt 3; VStr " for "; VStr col; VStr " is "; VFloat q3])
       (output run)
  /\ In (Print [VStr "IQR for the "; VStr col; VStr " variable: "; VFloat iqr])
       (output run)
  /\ In (Print [VStr "Lower and upper outlier limits for the "; VStr col;
                VStr " variable:"; VFloat lowerBound; VStr ", "; VFloat upperBound])
       (output run).
Proof.
  subst run outliers upperBound lowerBound iqr q1 q2 q3. unfold_study Hcol.
  (destruct print_stats, plot, skew, gaussian_test; split_study;
    repeat split; find_in).
Qed.

(** When the normality test (if requested) returns and the frame has
    rows, the study returns the rows outside the fences and prints their
    share of all rows. *)
Lemma study_continuous_returns :
  (gaussian_test = true -> exists sp, shapiro ext vs = inr sp) ->
  len df <> 0%nat ->
  outcome run = inr outliers
  /\ In (Print [VStr "Number of outliers: "; VInt (Z.of_nat (len outliers));
                VStr " which is ";
                VFloat (py_round
                          (fl (inject_Z (Z.of_nat (len outliers) * 100)
                               / inject_Z (Z.of_nat (len df)))) 2);
                VStr "% of the total dataset"])
       (output run).
Proof.
  intros Hsh Hlen.
  assert (Hz : (Z.of_nat (len df) =? 0)%Z = false) by (apply Z.eqb_neq; lia).
  subst run outliers upperBound lowerBound iqr q1 q2 q3. unfold_study Hcol.
  rewrite Hz.
  (destruct gaussian_test;
    [ destruct Hsh as [[stat p] Hsp]; [reflexivity | ] | ];
    destruct print_stats, plot, skew; split_study;
    try congruence;
    rewrite ?mask_or_map; (split; [reflexivity | find_in])).
Qed.

Lemma study_continuous_no_rows :
  (gaussian_test = true -> exists sp, shapiro ext vs = inr sp) ->
  len df = 0%nat -> outcome run = inl ZeroDivisionError.
Proof.
  intros Hsh Hlen.
  subst run outliers upperBound lowerBound iqr q1 q2 q3. unfold_study Hcol.
  rewrite Hlen.
  (destruct gaussian_test;
    [ destruct Hsh as [[stat p] Hsp]; [reflexivity | ] | ];
    destruct print_stats, plot, skew; split_study;
    try congruence; reflexivity).
Qed.

Lemma study_continuous_test_raises (e : PyExc) :
  gaussian_test = true -> shapiro ext vs = inl e -> outcome run = inl e.
Proof.
  intros -> Hsh.
  subst run outliers upperBound lowerBound iqr q1 q2 q3. unfold_study Hcol.
  (destruct print_stats, plot, skew; split_study;
    try congruence; reflexivity).
Qed.

(** A one-string message printed by the study comes from one of the two
    verdicts. *)
Lemma study_continuous_verdicts (m : string) :
  In (Print [VStr m]) (output run) <->
  (skew = true /\ In (Print [VStr m]) (output (skew_verdict (series_skew ext vs))))
  \/ (gaussian_test = true
      /\ exists stat p, shapiro ext vs = inr (stat, p)
                        /\ In (Print [VStr m]) (output (gaussian_verdict p))).
Proof.
  subst run outliers upperBound lowerBound iqr q1 q2 q3. unfold_study Hcol.
  (destruct print_stats, plot, skew, gaussian_test; split_study;
    (split;
     [ intro H; split_in;
       first
         [ left; split; [reflexivity | exact H]
         | right; split; [reflexivity|];
           do 2 eexists; split; [first [eassumption | reflexivity]|];
           match goal with E : gaussian_verdict _ = _ |- _ => rewrite E end;
           exact H ]
     | intros [[Hflag H] | [Hflag (stat' & p' & E & H)]];
       [ try discriminate Hflag; find_in
       | try discriminate Hflag; try discriminate E;
         injection E as <- <-;
         match goal with E' : gaussian_verdict _ = _ |- _ => rewrite E' in H end;
         find_in ] ])).
Qed.
End ContinuousRun.

Transparent quantile fsub fadd fmul flt fgt series_mean series_median py_round
  getitem_mask fl.

(** ** Arithmetic of the fences *)

Lemma fsub_value (x y : Q) : fsub (Some x) (Some y) = Some (b64 (x - y)).
Proof. reflexivity. Qed.

Lemma fadd_value (x y : Q) : fadd (Some x) (Some y) = Some (b64 (x + y)).
Proof. reflexivity. Qed.

Lemma fmul_value (x y : Q) : fmul (Some x) (Some y) = Some (b64 (x * y)).
Proof. reflexivity. Qed.

(** The fences of two quartiles that are doubles enclose them. *)
Lemma fences_enclose (a b : Q) :
  b64 a = a -> b64 b = b -> a <= b ->
  let iqr := b64 (b - a) in
  0 <= iqr
  /\ b64 (a - b64 (1.5 * iqr)) <= a
  /\ b <= b64 (b + b64 (1.5 * iqr)).
Proof.
  intros Ea Eb Hab. cbv zeta.
  assert (Hiqr : 0 <= b64 (b - a)).
  { rewrite <- b64_0. apply b64_mono. lra. }
  assert (Ht : 0 <= b64 (1.5 * b64 (b - a))).
  { rewrite <- b64_0. apply b64_mono. lra. }
  split; [exact Hiqr | split].
  - apply Qle_trans with (b64 a); [apply b64_mono; lra | rewrite Ea; apply Qle_refl].
  - apply Qle_trans with (b64 b); [rewrite Eb; apply Qle_refl | apply b64_mono; lra].
Qed.

(** ** The two verdicts *)

Lemma Qle_bool_false (x y : Q) : Qle_bool x y = false <-> y < x.
Proof.
  rewrite <- Qltb_lt. unfold Qltb. destruct (Qle_bool x y); simpl; intuition congruence.
Qed.

Ltac bool_to_Q :=
  unfold fgt, fge in *; unfold flt, fle in *;
  repeat match goal with
  | H : _ || _ = true |- _ => apply orb_true_iff in H; destruct H as [H | H]
  | H : _ || _ = false |- _ => apply orb_false_iff in H; destruct H as [? H]
  | H : _ && _ = true |- _ => apply andb_true_iff in H; destruct H as [? H]
  | H : _ && _ = false |- _ => apply andb_false_iff in H; destruct H as [H | H]
  | H : Qltb _ _ = true |- _ => apply Qltb_lt in H
  | H : Qltb _ _ = false |- _ => apply Qltb_ge in H
  | H : Qle_bool _ _ = true |- _ => apply Qle_bool_iff in H
  | H : Qle_bool _ _ = false |- _ => apply Qle_bool_false in H
  end.

Lemma Qabs_gt_iff (x y : Q) : y < Qabs x <-> x < - y \/ y < x.
Proof.
  split.
  - intro H.
    destruct (Qlt_le_dec x (- y)) as [Hl | Hl]; [left; exact Hl|].
    destruct (Qlt_le_dec y x) as [Hr | Hr]; [right; exact Hr|].
    exfalso. apply (Qlt_not_le _ _ H). apply Qabs_Qle_condition. split; assumption.
  - intro H.
    destruct (Qlt_le_dec y (Qabs x)) as [Hlt | Hle]; [exact Hlt|].
    apply Qabs_Qle_condition in Hle. exfalso. lra.
Qed.

Lemma Qabs_le_iff (x y : Q) : Qabs x <= y <-> - y <= x /\ x <= y.
Proof. apply Qabs_Qle_condition. Qed.

(** The skewness verdict is one of three outputs, decided by [|skew|]. *)
Lemma skew_verdict_cases (s : float) :
  (output (skew_verdict s) = [Print [VStr highly_skewed]]
   /\ exists x, s = Some x /\ 1 < Qabs x)
  \/ (output (skew_verdict s) = [Print [VStr moderately_skewed]]
      /\ exists x, s = Some x /\ 0.5 < Qabs x /\ Qabs x <= 1)
  \/ (output (skew_verdict s) = []
      /\ (s = NaN \/ exists x, s = Some x /\ Qabs x <= 0.5)).
Proof.
  destruct s as [x|]; [|right; right; split; [reflexivity | left; reflexivity]].
  unfold skew_verdict.
  destruct (flt (Some x) (Some (-1)) || fgt (Some x) (Some 1)) eqn:E1.
  - left. split; [reflexivity|]. exists x. split; [reflexivity|].
    apply Qabs_gt_iff. bool_to_Q; [left | right]; lra.
  - destruct ((fge (Some x) (Some (-1)) && flt (Some x) (Some (-0.5)))
              || (fgt (Some x) (Some 0.5) && fle (Some x) (Some 1))) eqn:E2.
    + right; left. split; [reflexivity|]. exists x. split; [reflexivity|].
      rewrite Qabs_gt_iff, Qabs_le_iff. bool_to_Q; lra.
    + right; right. split; [reflexivity|]. right. exists x. split; [reflexivity|].
      rewrite Qabs_le_iff. bool_to_Q; lra.
Qed.

Lemma gaussian_verdict_cases (p : float) :
  (output (gaussian_verdict p) = [Print [VStr looks_gaussian]]
   /\ exists x, p = Some x /\ b64 0.05 < x)
  \/ (output (gaussian_verdict p) = [Print [VStr not_gaussian]]
      /\ (p = NaN \/ exists x, p = Some x /\ x <= b64 0.05)).
Proof.
  destruct p as [x|]; [|right; split; [reflexivity | left; reflexivity]].
  unfold gaussian_verdict.
  destruct (fgt (Some x) (fl 0.05)) eqn:E.
  - left. split; [reflexivity|]. exists x. split; [reflexivity|].
    apply fgt_gt. exact E.
  - right. split; [reflexivity|]. right. exists x. split; [reflexivity|].
    apply Qltb_ge. exact E.
Qed.

Lemma skew_verdict_messages (s : float) (m : string) :
  In (Print [VStr m]) (output (skew_verdict s)) ->
  m = highly_skewed \/ m = moderately_skewed.
Proof.
  destruct (skew_verdict_cases s) as [[E _] | [[E _] | [E _]]]; rewrite E; simpl;
    intro H; split_in; try contradiction; injection H as <-; auto.
Qed.

Lemma gaussian_verdict_messages (p : float) (m : string) :
  In (Print [VStr m]) (output (gaussian_verdict p)) ->
  m = looks_gaussian \/ m = not_gaussian.
Proof.
  destruct (gaussian_verdict_cases p) as [[E _] | [E _]]; rewrite E; simpl;
    intro H; split_in; injection H as <-; auto.
Qed.

(** ** Errors of the continuous study *)

Lemma mask_filter_none {A B : Type} (vs : list B) (l : list A) :
  mask_filter (map (fun _ => false) vs) l = [].
Proof.
  revert l. induction vs as [|v t IH]; intros [|x l]; simpl; auto.
Qed.

(** With no value present the fences are NaN and no row is outside them. *)
Lemma no_outliers_when_all_missing (df : DataFrame) (vs : list float) :
  dropna vs = [] ->
  let q1 := quantile vs (1 # 4) in
  let q3 := quantile vs (3 # 4) in
  let iqr := fsub q3 q1 in
  index (getitem_mask df
           (map (fun v => flt v (fsub q1 (fmul (Some 1.5) iqr))
                          || fgt v (fadd q3 (fmul (Some 1.5) iqr))) vs)) = [].
Proof.
  intro E. cbv zeta. rewrite !(quantile_empty vs _ E). simpl fsub. simpl fadd.
  unfold getitem_mask. simpl index.
  rewrite (map_ext _ (fun _ => false)); [apply mask_filter_none|].
  intro v. unfold fgt. rewrite flt_NaN_r. reflexivity.
Qed.

(** Where an exception of the continuous study comes from. *)
Lemma study_continuous_raise_kinds (ext : Externals) (df : DataFrame) (col : string)
    (print_stats plot skew gaussian_test : bool) (e : PyExc) :
  outcome (study_column_continuous ext df col print_stats plot skew gaussian_test)
  = inl e ->
  (e = KeyError /\ lookup col (columns df) = None)
  \/ (e = TypeError /\ exists vs, lookup col (columns df) = Some (ObjSeries vs))
  \/ (e = ZeroDivisionError /\ len df = 0%nat)
  \/ (gaussian_test = true
      /\ exists vs, lookup col (columns df) = Some (NumSeries vs)
                    /\ shapiro ext vs = inl e).
Proof.
  intro H.
  destruct (lookup col (columns df)) as [[vs | vs]|] eqn:Hcol.
  - assert (Hcases : (gaussian_test = true /\ exists e', shapiro ext vs = inl e')
                     \/ (gaussian_test = true -> exists sp, shapiro ext vs = inr sp)).
    { destruct gaussian_test; [|right; discriminate].
      destruct (shapiro ext vs) as [e' | sp]; [left | right]; eauto. }
    destruct Hcases as [[Hg (e' & He')] | Hsh].
    + rewrite (study_continuous_test_raises ext df col print_stats plot skew
                 gaussian_test vs Hcol e' Hg He') in H.
      injection H as <-. right; right; right. eauto.
    + destruct (Nat.eq_dec (len df) 0) as [Hz | Hnz].
      * rewrite (study_continuous_no_rows ext df col print_stats plot skew
                   gaussian_test vs Hcol Hsh Hz) in H.
        injection H as <-. right; right; left. auto.
      * destruct (study_continuous_returns ext df col print_stats plot skew
                    gaussian_test vs Hcol Hsh Hnz) as [Hret _].
        rewrite Hret in H. discriminate H.
  - rewrite (study_continuous_object ext df col print_stats plot skew
               gaussian_test vs Hcol) in H.
    injection H as <-. right; left. eauto.
  - rewrite (study_continuous_missing ext df col print_stats plot skew
               gaussian_test Hcol) in H.
    injection H as <-. left. auto.
Qed.

(** ** Rounding *)

(** [round(x, 2)] is the nearest multiple of 0.01, the even one on a tie. *)
Lemma py_round_2_spec (x : Q) :
  exists k : Z,
    py_round (Some x) 2 = fl (inject_Z k / 100)
    /\ Qabs (x * 100 - inject_Z k) <= 1 # 2
    /\ (Qabs (x * 100 - inject_Z k) == 1 # 2 -> Z.even k = true).
Proof.
  exists (round_half_even (x * 100)).
  split; [reflexivity | apply round_half_even_spec].
Qed.

(** ** Running the outlier count *)

Lemma existsb_eqb_in (k : string) (l : list string) :
  existsb (String.eqb k) l = true <-> In k l.
Proof.
  rewrite existsb_exists. split.
  - intros (x & Hx & E). apply String.eqb_eq in E. subst. exact Hx.
  - intro H. exists k. split; [exact H | apply String.eqb_refl].
Qed.

Lemma numeric_columns_lookup (df : DataFrame) (col : string) :
  wf_frame df = true ->
  In col (numeric_columns df) ->
  exists vs, lookup col (columns df) = Some (NumSeries vs).
Proof.
  unfold wf_frame, numeric_columns. rewrite andb_true_iff. intros [Hd _].
  induction (columns df) as [|[k s] t IH]; simpl in *; [contradiction|].
  apply andb_true_iff in Hd. destruct Hd as [Hk Hd].
  apply negb_true_iff in Hk.
  intro Hin.
  assert (Htail : In col (map fst (filter (fun c => is_numeric (snd c)) t)) ->
                  exists vs, (if String.eqb col k then Some s else lookup col t)
                             = Some (NumSeries vs)).
  { intro Ht. destruct (String.eqb col k) eqn:E.
    - apply String.eqb_eq in E. subst k. exfalso.
      assert (Hn : In col (map fst t)).
      { apply in_map_iff in Ht. destruct Ht as (c & <- & Hc).
        apply filter_In in Hc. apply in_map, Hc. }
      apply existsb_eqb_in in Hn. congruence.
    - apply IH; assumption. }
  destruct (is_numeric s) eqn:Es; simpl in Hin.
  - destruct Hin as [<- | Hin]; [|apply Htail, Hin].
    rewrite String.eqb_refl. destruct s; [eauto | discriminate].
  - apply Htail, Hin.
Qed.

Lemma lookup_numeric_columns (df : DataFrame) (col : string) (vs : list float) :
  lookup col (columns df) = Some (NumSeries vs) -> In col (numeric_columns df).
Proof.
  unfold numeric_columns.
  induction (columns df) as [|[k s] t IH]; simpl; [discriminate|].
  destruct (String.eqb col k) eqn:E.
  - intro H. injection H as ->. apply String.eqb_eq in E. subst. simpl. left. reflexivity.
  - intro H. destruct (is_numeric s); simpl; [right|]; apply IH, H.
Qed.

Section OutlierRecord.
Variables (df : DataFrame) (col : string) (vs : list float).
Hypothesis Hcol : lookup col (columns df) = Some (NumSeries vs).

Let q25 : float := quantile vs 0.25.
Let q75 : float := quantile vs 0.75.
Let num_high : nat :=
  len (getitem_mask df
         (map (fun v => fgt v (fadd q75 (fmul (Some 1.5) (fsub q75 q25)))) vs)).
Let num_low : nat :=
  len (getitem_mask df
         (map (fun v => flt v (fsub q25 (fmul (Some 1.5) (fsub q75 q25)))) vs)).

Lemma outlier_record_value :
  len df <> 0%nat ->
  outlier_record df col
  = ([], inr [("Column", VStr col);
              ("Number of High outliers", VInt (Z.of_nat num_high));
              ("Number of Low outliers", VInt (Z.of_nat num_low));
              ("High outliers %",
               VFloat (py_round (fl (inject_Z (Z.of_nat num_high * 100)
                                     / inject_Z (Z.of_nat (len df)))) 2));
              ("Low outliers %",
               VFloat (py_round (fl (inject_Z (Z.of_nat num_low * 100)
                                     / inject_Z (Z.of_nat (len df)))) 2))]%string).
Proof.
  intro Hlen.
  assert (Hz : (Z.of_nat (len df) =? 0)%Z = false) by (apply Z.eqb_neq; lia).
  unfold outlier_record, num_col, getitem, truediv. rewrite Hcol, Hz.
  reflexivity.
Qed.

Lemma outlier_record_no_rows :
  len df = 0%nat -> outlier_record df col = ([], inl ZeroDivisionError).
Proof.
  intro Hlen. unfold outlier_record, num_col, getitem, truediv.
  rewrite Hcol, Hlen. reflexivity.
Qed.
End OutlierRecord.

Lemma outlier_record_raise_kinds (df : DataFrame) (col : string) (e : PyExc) :
  outcome (outlier_record df col) = inl e ->
  e = KeyError \/ e = TypeError \/ e = ZeroDivisionError.
Proof.
  destruct (lookup col (columns df)) as [[vs | vs]|] eqn:Hcol.
  - destruct (Nat.eq_dec (len df) 0) as [Hz | Hnz].
    + rewrite (outlier_record_no_rows df col vs Hcol Hz). simpl.
      intro H. injection H as <-. auto.
    + rewrite (outlier_record_value df col vs Hcol Hnz). discriminate.
  - unfold outlier_record, num_col, getitem. rewrite Hcol. simpl.
    intro H. injection H as <-. auto.
  - unfold outlier_record, num_col, getitem. rewrite Hcol. simpl.
    intro H. injection H as <-. auto.
Qed.

Lemma count_fold_returns (df : DataFrame) (cols : list string) (out : Report) :
  (forall c, In c cols -> exists r, outlier_record df c = ([], inr r)) ->
  for_fold cols (count_body df) out
  = ([], inr (fold_left (fun o c => append o (record_of df c)) cols out)).
Proof.
  revert out. induction cols as [|c t IH]; intros out H; simpl; [reflexivity|].
  destruct (H c (or_introl eq_refl)) as [r Hr].
  unfold count_body at 1, record_of at 2. rewrite Hr. simpl.
  rewrite IH by (intros c' Hc'; apply H; right; exact Hc').
  reflexivity.
Qed.

Lemma count_fold_raises (df : DataFrame) (cols : list string) (out : Report) (e : PyExc) :
  outcome (for_fold cols (count_body df) out) = inl e ->
  exists c, In c cols /\ outcome (outlier_record df c) = inl e.
Proof.
  revert out. induction cols as [|c t IH]; intros out; simpl; [discriminate|].
  unfold count_body at 1.
  destruct (outlier_record df c) as [o [e' | r]] eqn:Hr; simpl.
  - intro H. injection H as <-. exists c. rewrite Hr. auto.
  - destruct (for_fold t (count_body df) (append out r)) as [o' r'] eqn:Hf. simpl.
    intro H. subst r'.
    destruct (IH (append out r) ) as (c' & Hc' & He).
    + rewrite Hf. reflexivity.
    + exists c'. auto.
Qed.

Lemma fold_append_rows (df : DataFrame) (cols : list string) (out : Report) :
  rrows (fold_left (fun o c => append o (record_of df c)) cols out)
  = rrows out ++ map (record_of df) cols.
Proof.
  revert out. induction cols as [|c t IH]; intro out; simpl.
  - rewrite app_nil_r. reflexivity.
  - rewrite IH. simpl. rewrite <- app_assoc. reflexivity.
Qed.

Lemma fold_append_labels (df : DataFrame) (cols : list string) (out : Report)
    (label : string) :
  In label (rcolumns out) ->
  In label (rcolumns (fold_left (fun o c => append o (record_of df c)) cols out)).
Proof.
  revert out. induction cols as [|c t IH]; intros out H; simpl; [exact H|].
  apply IH. simpl. apply in_or_app. left. exact H.
Qed.

Lemma append_labels (out : Report) (record : list (string * pyval)) (label : string) :
  In label (map fst record) -> In label (rcolumns (append out record)).
Proof.
  intro H. simpl. apply in_or_app.
  destruct (existsb (String.eqb label) (rcolumns out)) eqn:E.
  - left. apply existsb_eqb_in, E.
  - right. apply filter_In. split; [exact H | rewrite E; reflexivity].
Qed.

Lemma count_outliers_unfold (df : DataFrame) :
  count_outliers_per_column df
  = for_fold (numeric_columns df) (count_body df)
      (empty_report ["Column"; "Number of high outliers"; "Number of low outliers"]%string).
Proof. reflexivity. Qed.

(** On a well-formed frame with rows the count returns one record per
    numeric column, in column order. *)
Lemma count_outliers_returns (df : DataFrame) :
  wf_frame df = true -> len df <> 0%nat ->
  exists report,
    count_outliers_per_column df = ([], inr report)
    /\ rrows report = map (record_of df) (numeric_columns df)
    /\ (forall label,
          In label ["Column"; "Number of high outliers"; "Number of low outliers"]%string ->
          In label (rcolumns report))
    /\ (numeric_columns df <> [] ->
        forall label,
          In label ["Number of High outliers"; "Number of Low outliers";
                    "High outliers %"; "Low outliers %"]%string ->
          In label (rcolumns report)).
Proof.
  intros Hwf Hlen. rewrite count_outliers_unfold.
  assert (Hrec : forall c, In c (numeric_columns df) ->
            exists r, outlier_record df c = ([], inr r)).
  { intros c Hc. destruct (numeric_columns_lookup df c Hwf Hc) as [vs Hvs].
    eexists. apply (outlier_record_value df c vs Hvs Hlen). }
  rewrite (count_fold_returns df _ _ Hrec).
  eexists. split; [reflexivity|]. split; [|split].
  - rewrite fold_append_rows. reflexivity.
  - intros label Hl. apply fold_append_labels. exact Hl.
  - intros Hne label Hl.
    destruct (numeric_columns df) as [|c t] eqn:Ecols; [congruence|].
    simpl fold_left. apply fold_append_labels, append_labels.
    destruct (numeric_columns_lookup df c Hwf) as [vs Hvs];
      [rewrite Ecols; left; reflexivity|].
    unfold record_of. rewrite (outlier_record_value df c vs Hvs Hlen).
    simpl in *. tauto.
Qed.

(** The record of a numeric column of a well-formed frame with rows. *)
Lemma record_of_value (df : DataFrame) (col : string) (vs : list float) :
  wf_frame df = true -> len df <> 0%nat ->
  lookup col (columns df) = Some (NumSeries vs) ->
  let q25 := quantile vs 0.25 in
  let q75 := quantile vs 0.75 in
  let high :=
    List.length
      (filter (fun v => fgt v (fadd q75 (fmul (Some 1.5) (fsub q75 q25)))) vs) in
  let low :=
    List.length
      (filter (fun v => flt v (fsub q25 (fmul (Some 1.5) (fsub q75 q25)))) vs) in
  record_of df col
  = [("Column", VStr col);
     ("Number of High outliers", VInt (Z.of_nat high));
     ("Number of Low outliers", VInt (Z.of_nat low));
     ("High outliers %",
      VFloat (py_round (fl (inject_Z (Z.of_nat high * 100)
                            / inject_Z (Z.of_nat (len df)))) 2));
     ("Low outliers %",
      VFloat (py_round (fl (inject_Z (Z.of_nat low * 100)
                            / inject_Z (Z.of_nat (len df)))) 2))]%string.
Proof.
  intros Hwf Hlen Hcol. cbv zeta.
  unfold record_of. rewrite (outlier_record_value df col vs Hcol Hlen).
  rewrite !(len_getitem_mask df col vs _ Hwf Hcol). reflexivity.
Qed.

(** Where an exception of the outlier count comes from. *)
Lemma count_outliers_raise_kinds (df : DataFrame) (e : PyExc) :
  outcome (count_outliers_per_column df) = inl e ->
  e = KeyError \/ e = TypeError \/ e = ZeroDivisionError.
Proof.
  rewrite count_outliers_unfold. intro H.
  apply count_fold_raises in H. destruct H as (c & _ & H).
  apply outlier_record_raise_kinds in H. exact H.
Qed.

Lemma outlier_record_shape (df : DataFrame) (col : string)
    (record : list (string * pyval)) :
  outcome (outlier_record df col) = inr record ->
  exists (high low : Z) (high_pct low_pct : float),
    record = [("Column", VStr col);
              ("Number of High outliers", VInt high);
              ("Number of Low outliers", VInt low);
              ("High outliers %", VFloat high_pct);
              ("Low outliers %", VFloat low_pct)]%string.
Proof.
  destruct (lookup col (columns df)) as [[vs | vs]|] eqn:Hcol.
  - destruct (Nat.eq_dec (len df) 0) as [Hz | Hnz].
    + rewrite (outlier_record_no_rows df col vs Hcol Hz). discriminate.
    + rewrite (outlier_record_value df col vs Hcol Hnz). simpl.
      intro H. injection H as <-. do 4 eexists. reflexivity.
  - unfold outlier_record, num_col, getitem. rewrite Hcol. discriminate.
  - unfold outlier_record, num_col, getitem. rewrite Hcol. discriminate.
Qed.

Lemma count_fold_rows (df : DataFrame) (cols : list string) (out report : Report) :
  outcome (for_fold cols (count_body df) out) = inr report ->
  forall row, In row (rrows report) ->
    In row (rrows out)
    \/ exists c, In c cols /\ outcome (outlier_record df c) = inr row.
Proof.
  revert out. induction cols as [|c t IH]; intros out; simpl.
  - intro H. injection H as <-. auto.
  - unfold count_body at 1.
    destruct (outlier_record df c) as [o [e | r]] eqn:Hr; simpl; [discriminate|].
    destruct (for_fold t (count_body df) (append out r)) as [o' r'] eqn:Hf. simpl.
    intros -> row Hrow.
    destruct (IH (append out r)) with (row := row) as [Hin | (c' & Hc' & Hrec)].
    + rewrite Hf. reflexivity.
    + exact Hrow.
    + simpl in Hin. apply in_app_or in Hin. destruct Hin as [Hin | [<- | []]].
      * left. exact Hin.
      * right. exists c. rewrite Hr. auto.
    + right. exists c'. auto.
Qed.

(** ** The mode *)

Section ModeFacts.
Variable A : Type.
Variable eqb : A -> A -> bool.
Variable leb : A -> A -> bool.
Hypothesis eqb_refl : forall x, eqb x x = true.
Hypothesis eqb_sym : forall x y, eqb x y = true -> eqb y x = true.
Hypothesis eqb_trans : forall x y z, eqb x y = true -> eqb y z = true -> eqb x z = true.
Hypothesis leb_total : forall x y, leb x y = true \/ leb y x = true.
Hypothesis leb_trans : forall x y z, leb x y = true -> leb y z = true -> leb x z = true.
Hypothesis eqb_leb : forall x y, eqb x y = true -> leb x y = true.

Lemma eqb_congr (x y z : A) : eqb x y = true -> eqb x z = eqb y z.
Proof.
  intro H. destruct (eqb y z) eqn:E.
  - eapply eqb_trans; eassumption.
  - destruct (eqb x z) eqn:E'; [|reflexivity].
    rewrite <- E. symmetry. eapply eqb_trans; [apply eqb_sym, H | exact E'].
Qed.

Lemma count_of_eqb (x y : A) (l : list A) :
  eqb x y = true -> count_of eqb x l = count_of eqb y l.
Proof.
  intro H. unfold count_of. f_equal. apply filter_ext.
  intro z. apply eqb_congr, H.
Qed.

Lemma count_le_max_over (l l' : list A) (x : A) :
  In x l' ->
  (count_of eqb x l <= fold_right (fun y m => Nat.max (count_of eqb y l) m) 0 l')%nat.
Proof.
  induction l' as [|y t IH]; simpl; [contradiction|].
  intros [-> | H]; [lia | specialize (IH H); lia].
Qed.

Lemma max_over_attained (l l' : list A) :
  l' <> [] ->
  exists x, In x l'
            /\ count_of eqb x l
               = fold_right (fun y m => Nat.max (count_of eqb y l) m) 0%nat l'.
Proof.
  induction l' as [|y t IH]; [congruence|]. intros _. simpl.
  destruct t as [|z t'].
  - exists y. split; [left; reflexivity | simpl; lia].
  - destruct IH as (x & Hx & Ex); [discriminate|].
    destruct (Nat.le_gt_cases
                (fold_right (fun y m => Nat.max (count_of eqb y l) m) 0%nat (z :: t'))
                (count_of eqb y l)) as [Hle | Hgt].
    + exists y. split; [left; reflexivity | lia].
    + exists x. split; [right; exact Hx | lia].
Qed.

Lemma unique_in (l : list A) (x : A) : In x (unique eqb l) -> In x l.
Proof.
  revert x. induction l as [|y t IH]; simpl; [tauto|].
  intros x [-> | H]; [left; reflexivity|].
  apply filter_In in H. right. apply IH, H.
Qed.

(** Every value of the column is represented among its distinct values. *)
Lemma unique_represents (l : list A) (x : A) :
  In x l -> exists u, In u (unique eqb l) /\ eqb u x = true.
Proof.
  induction l as [|y t IH]; simpl; [contradiction|].
  intros [-> | H].
  - exists x. split; [left; reflexivity | apply eqb_refl].
  - destruct (IH H) as (u & Hu & Eu).
    destruct (eqb y u) eqn:E.
    + exists y. split; [left; reflexivity | eapply eqb_trans; eassumption].
    + exists u. split; [|exact Eu].
      right. apply filter_In. split; [exact Hu | rewrite E; reflexivity].
Qed.

(** The first mode is a value of the column, no value is more frequent, and
    it is below every value that is as frequent. *)
Lemma mode_head (l : list A) (m : A) (t : list A) :
  mode eqb leb l = m :: t ->
  In m l
  /\ forall v, In v l ->
       (count_of eqb v l <= count_of eqb m l)%nat
       /\ (count_of eqb v l = count_of eqb m l -> leb m v = true).
Proof.
  unfold mode. intro E.
  set (cands := filter (fun x => Nat.eqb (count_of eqb x l) (max_count eqb l))
                  (unique eqb l)) in *.
  assert (Hm : In m cands).
  { apply (sort_values_in A leb cands m). rewrite E. left. reflexivity. }
  apply filter_In in Hm. destruct Hm as [Hmu Hmc]. apply Nat.eqb_eq in Hmc.
  split; [apply unique_in, Hmu|].
  intros v Hv. split.
  - rewrite Hmc. apply count_le_max_over, Hv.
  - intro Hc.
    destruct (unique_represents l v Hv) as (u & Hu & Eu).
    assert (Hcand : In u cands).
    { apply filter_In. split; [exact Hu|]. apply Nat.eqb_eq.
      rewrite (count_of_eqb u v l Eu). congruence. }
    eapply leb_trans; [|apply eqb_leb, Eu].
    apply (sort_values_head A leb leb_total leb_trans cands m t E u Hcand).
Qed.

Lemma mode_nonempty (l : list A) : l <> [] -> mode eqb leb l <> [].
Proof.
  intros Hne Hmode.
  destruct (max_over_attained l l Hne) as (x & Hx & Ex).
  destruct (unique_represents l x Hx) as (u & Hu & Eu).
  assert (Hin : In u (mode eqb leb l)).
  { unfold mode. apply sort_values_in. apply filter_In. split; [exact Hu|].
    apply Nat.eqb_eq. rewrite (count_of_eqb u x l Eu). exact Ex. }
  rewrite Hmode in Hin. contradiction.
Qed.
End ModeFacts.

Lemma Qeq_bool_leb (x y : Q) : Qeq_bool x y = true -> Qle_bool x y = true.
Proof.
  intro H. apply Qeq_bool_iff in H. apply Qle_bool_iff. rewrite H. apply Qle_refl.
Qed.

Ltac order_facts :=
  first [ exact Qeq_bool_refl | exact Qeq_bool_sym | exact Qeq_bool_trans
        | exact Qle_bool_total | exact Qle_bool_trans | exact Qeq_bool_leb
        | assumption ].

(** The first mode of a numeric column with a value present. *)
Lemma numeric_mode (vs : list float) :
  dropna vs <> [] ->
  exists m,
    mode0 (NumSeries vs) = ret (VFloat (Some m))
    /\ In m (dropna vs)
    /\ forall v, In v (dropna vs) ->
         (count_of Qeq_bool v (dropna vs) <= count_of Qeq_bool m (dropna vs))%nat
         /\ (count_of Qeq_bool v (dropna vs) = count_of Qeq_bool m (dropna vs) ->
             m <= v).
Proof.
  intro Hne.
  assert (Hmode : mode Qeq_bool Qle_bool (dropna vs) <> []).
  { apply mode_nonempty; order_facts. }
  destruct (mode Qeq_bool Qle_bool (dropna vs)) as [|m t] eqn:E; [congruence|].
  exists m. split; [simpl; rewrite E; reflexivity|].
  assert (Hhead : In m (dropna vs)
                  /\ forall v, In v (dropna vs) ->
                       (count_of Qeq_bool v (dropna vs)
                        <= count_of Qeq_bool m (dropna vs))%nat
                       /\ (count_of Qeq_bool v (dropna vs)
                           = count_of Qeq_bool m (dropna vs) ->
                           Qle_bool m v = true)).
  { apply (mode_head Q Qeq_bool Qle_bool) with (t := t); order_facts. }
  destruct Hhead as [Hin Hall].
  split; [exact Hin|].
  intros v Hv. destruct (Hall v Hv) as [Hle Htie].
  split; [exact Hle|]. intro Hc. apply Qle_bool_iff, Htie, Hc.
Qed.

Lemma study_discrete_prints_mode (ext : Externals) (df : DataFrame) (col : string)
    (target : option string) (vs : list float) (m : pyval) :
  lookup col (columns df) = Some (NumSeries vs) ->
  mode0 (NumSeries vs) = ret m ->
  In (Print [VStr "The column "; VStr col; VStr " mode is "; m])
     (output (study_column_discrete ext df col target true)).
Proof.
  intros Hcol Hmode.
  unfold study_column_discrete, print_mean_median_std, num_col, getitem, when.
  rewrite Hcol. cbn -[mode0]. rewrite Hmode.
  destruct (truthy target); cbn; find_in.
Qed.

Lemma study_categorical_prints_mode (df : DataFrame) (col : string)
    (target : option string) (vs : list float) (m : pyval) :
  lookup col (columns df) = Some (NumSeries vs) ->
  mode0 (NumSeries vs) = ret m ->
  In (Print [VStr "The column "; VStr col; VStr " mode is "; m])
     (output (study_column_categorical df col target)).
Proof.
  intros Hcol Hmode.
  unfold study_column_categorical, getitem, when.
  rewrite Hcol. cbn -[mode0 nunique]. rewrite Hmode.
  destruct (truthy target && negb (opt_eqb String.eqb target (Some col)));
    cbn -[nunique]; find_in.
Qed.

(** The skewness verdicts of a run with the skewness study requested. *)
Lemma skew_verdicts_of_run
    (ext : Externals) (df : DataFrame) (col : string)
    (print_stats plot gaussian_test : bool) (vs : list float) :
  lookup col (columns df) = Some (NumSeries vs) ->
  let s := series_skew ext vs in
  let run := study_column_continuous ext df col print_stats plot true gaussian_test in
  (In (Print [VStr highly_skewed]) (output run) <-> exists x, s = Some x /\ 1 < Qabs x)
  /\ (In (Print [VStr moderately_skewed]) (output run)
      <-> exists x, s = Some x /\ 0.5 < Qabs x /\ Qabs x <= 1)
  /\ (output (skew_verdict s) = []
      <-> s = NaN \/ exists x, s = Some x /\ Qabs x <= 0.5)
  /\ (forall m, In (Print [VStr m]) (output run) ->
        m = highly_skewed \/ m = moderately_skewed
        \/ m = looks_gaussian \/ m = not_gaussian).
Proof.
  intros Hcol. cbv zeta.
  pose proof (study_continuous_verdicts ext df col print_stats plot true
                gaussian_test vs Hcol) as Hv.
  assert (Hskew : forall m, m = highly_skewed \/ m = moderately_skewed ->
            (In (Print [VStr m]) (output
               (study_column_continuous ext df col print_stats plot true gaussian_test))
             <-> In (Print [VStr m]) (output (skew_verdict (series_skew ext vs))))).
  { intros m Hm. rewrite Hv. split.
    - intros [[_ H] | [_ (stat & p & _ & H)]]; [exact H|].
      apply gaussian_verdict_messages in H.
      destruct Hm as [-> | ->], H as [H | H]; discriminate H.
    - intro H. left. split; [reflexivity | exact H]. }
  destruct (skew_verdict_cases (series_skew ext vs))
    as [[E (x & Ex & Hx)] | [[E (x & Ex & Hx1 & Hx2)] | [E Hx]]].
  - rewrite (Hskew highly_skewed), (Hskew moderately_skewed), E by auto.
    repeat split.
    + intros _. exists x. split; assumption.
    + intros _. left. reflexivity.
    + intro H. split_in.
    + intros (y & Ey & Hy1 & Hy2). rewrite Ex in Ey. injection Ey as <-.
      exfalso. lra.
    + discriminate.
    + intros [H | (y & Ey & Hy)]; [rewrite Ex in H; discriminate H|].
      rewrite Ex in Ey. injection Ey as <-. exfalso. lra.
    + intros m Hm. apply Hv in Hm.
      destruct Hm as [[_ H] | [_ (stat & p & _ & H)]].
      * apply skew_verdict_messages in H. tauto.
      * apply gaussian_verdict_messages in H. tauto.
  - rewrite (Hskew highly_skewed), (Hskew moderately_skewed), E by auto.
    repeat split.
    + intro H. split_in.
    + intros (y & Ey & Hy). rewrite Ex in Ey. injection Ey as <-. exfalso. lra.
    + intros _. exists x. repeat split; assumption.
    + intros _. left. reflexivity.
    + discriminate.
    + intros [H | (y & Ey & Hy)]; [rewrite Ex in H; discriminate H|].
      rewrite Ex in Ey. injection Ey as <-. exfalso. lra.
    + intros m Hm. apply Hv in Hm.
      destruct Hm as [[_ H] | [_ (stat & p & _ & H)]].
      * apply skew_verdict_messages in H. tauto.
      * apply gaussian_verdict_messages in H. tauto.
  - rewrite (Hskew highly_skewed), (Hskew moderately_skewed), E by auto.
    repeat split.
    + intros [].
    + intros (y & Ey & Hy). destruct Hx as [Hx | (x & Ex & Hx)];
        rewrite Ey in *; [discriminate Hx|].
      injection Ex as <-. exfalso. lra.
    + intros [].
    + intros (y & Ey & Hy1 & Hy2). destruct Hx as [Hx | (x & Ex & Hx)];
        rewrite Ey in *; [discriminate Hx|].
      injection Ex as <-. exfalso. lra.
    + intros _. exact Hx.
    + intros m Hm. apply Hv in Hm.
      destruct Hm as [[_ H] | [_ (stat & p & _ & H)]].
      * apply skew_verdict_messages in H. tauto.
      * apply gaussian_verdict_messages in H. tauto.
Qed.

(** * The claims *)





(** C3 (as the code has it).  The continuous study raises [KeyError] when
    the column is not in the table; on a column of a table with rows whose
    values are all missing it raises nothing and returns no row; and it
    never raises EmptyColumnError, ColumnNotFoundError or
    InvalidColumnTypeError itself (only a failure of the external normality
    test could carry such a name). *)
Theorem continuous_study_errors :
  (forall (ext : Externals) (df : DataFrame) (col : string)
          (print_stats plot skew gaussian_test : bool),
      lookup col (columns df) = None ->
      study_column_continuous ext df col print_stats plot skew gaussian_test
      = ([], inl KeyError))
  /\ (forall (ext : Externals) (df : DataFrame) (col : string)
             (print_stats plot skew gaussian_test : bool) (vs : list float),
        lookup col (columns df) = Some (NumSeries vs) ->
        dropna vs = [] ->
        len df <> 0%nat ->
        (gaussian_test = true -> exists sp, shapiro ext vs = inr sp) ->
        exists outliers,
          outcome (study_column_continuous ext df col
                     print_stats plot skew gaussian_test) = inr outliers
          /\ index outliers = [])
  /\ (forall (ext : Externals) (df : DataFrame) (col : string)
             (print_stats plot skew gaussian_test : bool) (e : PyExc),
        outcome (study_column_continuous ext df col
                   print_stats plot skew gaussian_test) = inl e ->
        In e ["EmptyColumnError"; "ColumnNotFoundError"; "InvalidColumnTypeError"]%string ->
        gaussian_test = true /\ exists vs, shapiro ext vs = inl e).
Proof.
  split; [|split].
  - intros. apply study_continuous_missing. assumption.
  - intros ext df col ps pl sk gt vs Hcol Hna Hlen Hsh.
    destruct (study_continuous_returns ext df col ps pl sk gt vs Hcol Hsh Hlen)
      as [Hret _].
    eexists. split; [exact Hret|].
    apply no_outliers_when_all_missing, Hna.
  - intros ext df col ps pl sk gt e H Hin.
    apply study_continuous_raise_kinds in H.
    destruct H as [[-> _] | [[-> _] | [[-> _] | [Hg (vs & _ & Hsh)]]]].
    + simpl in Hin. exfalso. intuition discriminate.
    + simpl in Hin. exfalso. intuition discriminate.
    + simpl in Hin. exfalso. intuition discriminate.
    + split; [exact Hg | eauto].
Qed.

Lemma continuous_study_errors_witness :
  study_column_continuous no_ext df_missing "y" true true true true = ([], inl KeyError)
  /\ exists outliers,
       outcome (study_column_continuous no_ext df_missing "x" true true true true)
       = inr outliers
       /\ index outliers = [].
Proof.
  split.
  - apply (proj1 continuous_study_errors). reflexivity.
  - apply (proj1 (proj2 continuous_study_errors) no_ext df_missing "x"%string
             true true true true [NaN; NaN]).
    + reflexivity.
    + reflexivity.
    + discriminate.
    + intros _. eexists. reflexivity.
Defined.

(** A column with rows and no value present is studied without an error,
    and a column that is not in the table raises [KeyError]: neither run
    ends in EmptyColumnError or ColumnNotFoundError. *)
Lemma continuous_study_raises_no_named_error :
  outcome (study_column_continuous no_ext df_missing "x" true false false false)
  = inr {| index := []; columns := [("x"%string, NumSeries [])] |}
  /\ outcome (study_column_continuous no_ext df_missing "y" true false false false)
     = inl "KeyError"%string
  /\ String.eqb "KeyError" "ColumnNotFoundError" = false.
Proof. repeat split; vm_compute; reflexivity. Qed.



(** C5 (as the code has it).  With the skewness study requested, the
    study prints "highly skewed" iff [|s| > 1] and "moderately skewed" iff
    [0.5 < |s| <= 1]; otherwise ([|s| <= 0.5], or an undefined skewness) it
    prints neither, and no other verdict: the only one-string messages of a
    run are the two skewness verdicts and the two normality verdicts. *)
Theorem skew_classification
    (ext : Externals) (df : DataFrame) (col : string)
    (print_stats plot gaussian_test : bool) (vs : list float) :
  lookup col (columns df) = Some (NumSeries vs) ->
  let s := series_skew ext vs in
  let run := study_column_continuous ext df col print_stats plot true gaussian_test in
  (In (Print [VStr highly_skewed]) (output run) <-> exists x, s = Some x /\ 1 < Qabs x)
  /\ (In (Print [VStr moderately_skewed]) (output run)
      <-> exists x, s = Some x /\ 0.5 < Qabs x /\ Qabs x <= 1)
  /\ (~ In (Print [VStr highly_skewed]) (output run)
      /\ ~ In (Print [VStr moderately_skewed]) (output run)
      <-> s = NaN \/ exists x, s = Some x /\ Qabs x <= 0.5)
  /\ (forall m, In (Print [VStr m]) (output run) ->
        m = highly_skewed \/ m = moderately_skewed
        \/ m = looks_gaussian \/ m = not_gaussian).
Proof.
  intros Hcol. cbv zeta.
  destruct (skew_verdicts_of_run ext df col print_stats plot gaussian_test vs Hcol)
    as (Hhigh & Hmod & _ & Hall).
  cbv zeta in Hhigh, Hmod, Hall.
  split; [exact Hhigh | split; [exact Hmod | split; [|exact Hall]]].
  rewrite Hhigh, Hmod.
  destruct (series_skew ext vs) as [x|].
  - split.
    + intros [Hn1 Hn2]. right. exists x. split; [reflexivity|].
      destruct (Qlt_le_dec 0.5 (Qabs x)) as [Hlt | Hle]; [|exact Hle].
      exfalso. destruct (Qlt_le_dec 1 (Qabs x)) as [Hbig | Hsmall].
      * apply Hn1. exists x. auto.
      * apply Hn2. exists x. auto.
    + intros [H | (y & Ey & Hy)]; [discriminate H|].
      injection Ey as <-.
      split; intros (z & Ez & Hz); injection Ez as <-; lra.
  - split.
    + intros _. left. reflexivity.
    + intros _. split; intros (z & Ez & _); discriminate Ez.
Qed.

Lemma skew_classification_witness :
  In (Print [VStr moderately_skewed])
     (output (study_column_continuous
                {| series_std := fun _ => NaN;
                   series_skew := fun _ => Some 0.75;
                   shapiro := fun _ => inr (fl 0.9, fl 0.2) |}
                df_skewed "x" false false true false)).
Proof.
  apply (proj1 (proj2 (skew_classification
                  {| series_std := fun _ => NaN;
                     series_skew := fun _ => Some 0.75;
                     shapiro := fun _ => inr (fl 0.9, fl 0.2) |}
                  df_skewed "x"%string false false false
                  [Some 1; Some 2; Some 3; Some 4; Some 5; Some 100] eq_refl))).
  exists 0.75. split; [reflexivity | split; [reflexivity | discriminate]].
Defined.

(** A column whose skewness is 0 gets no verdict: nothing printed by the
    study mentions symmetry. *)
Lemma symmetric_column_no_verdict :
  series_skew no_ext [Some 1; Some 1; Some 2; Some 2] = Some 0
  /\ output (skew_verdict (Some 0)) = []
  /\ existsb (contains "symmetric")
       (printed_strings
          (output (study_column_continuous no_ext df_ties "x" true false true false)))
     = false.
Proof. split; [reflexivity | split; [reflexivity | vm_compute; reflexivity]]. Qed.

(** C6. Of the two normality verdicts the study prints "looks Gaussian"
    iff the p-value of the test is above 0.05, and "does not look Gaussian"
    otherwise; p = 0.2 gives the first, p = 0.01 the second. *)
Theorem gaussian_threshold :
  (forall (ext : Externals) (df : DataFrame) (col : string)
          (print_stats plot skew : bool) (vs : list float) (stat p : float),
      lookup col (columns df) = Some (NumSeries vs) ->
      shapiro ext vs = inr (stat, p) ->
      let run := study_column_continuous ext df col print_stats plot skew true in
      (In (Print [VStr looks_gaussian]) (output run) <-> fgt p (fl 0.05) = true)
      /\ (In (Print [VStr not_gaussian]) (output run) <-> fgt p (fl 0.05) = false))
  /\ (forall p : float,
        fgt p (fl 0.05) = true <-> exists x, p = Some x /\ b64 0.05 < x)
  /\ output (gaussian_verdict (fl 0.2)) = [Print [VStr looks_gaussian]]
  /\ output (gaussian_verdict (fl 0.01)) = [Print [VStr not_gaussian]].
Proof.
  split; [|split; [|split; vm_compute; reflexivity]].
  - intros ext df col ps pl sk vs stat p Hcol Hsh. cbv zeta.
    pose proof (study_continuous_verdicts ext df col ps pl sk true vs Hcol) as Hv.
    assert (Hg : forall m, m = looks_gaussian \/ m = not_gaussian ->
              (In (Print [VStr m])
                 (output (study_column_continuous ext df col ps pl sk true))
               <-> In (Print [VStr m]) (output (gaussian_verdict p)))).
    { intros m Hm. rewrite Hv. split.
      - intros [[_ H] | [_ (stat' & p' & E & H)]].
        + apply skew_verdict_messages in H.
          destruct Hm as [-> | ->], H as [H | H]; discriminate H.
        + rewrite Hsh in E. injection E as <- <-. exact H.
      - intro H. right. split; [reflexivity|]. exists stat, p. split; assumption. }
    rewrite (Hg looks_gaussian), (Hg not_gaussian) by auto.
    unfold gaussian_verdict. destruct (fgt p (fl 0.05)); simpl; split; split;
      intro H; split_in; try discriminate; auto.
  - intro p. destruct p as [x|].
    + split.
      * intro H. exists x. split; [reflexivity|]. apply fgt_gt. exact H.
      * intros (y & Ey & Hy). injection Ey as <-. apply fgt_gt. exact Hy.
    + split; [discriminate | intros (y & Ey & _); discriminate Ey].
Qed.

Lemma gaussian_threshold_witness :
  In (Print [VStr looks_gaussian])
     (output (study_column_continuous no_ext df_skewed "x" true true true true)).
Proof.
  apply (proj1 (proj1 gaussian_threshold no_ext df_skewed "x"%string
                  true true true
                  [Some 1; Some 2; Some 3; Some 4; Some 5; Some 100]
                  (fl 0.9) (fl 0.2) eq_refl eq_refl)).
  vm_compute. reflexivity.
Defined.



(** C8 (as the code has it).  On a table without numeric columns the
    outlier count returns the empty report without raising.  It never
    raises EmptyColumnError: for a numeric column of a table with rows
    whose values are all missing it records zero high and zero low outliers
    and 0.0 for both percentages. *)
Theorem outlier_count_on_empty_input :
  (forall df : DataFrame,
      numeric_columns df = [] ->
      count_outliers_per_column df
      = ([], inr (empty_report
                    ["Column"; "Number of high outliers"; "Number of low outliers"]%string)))
  /\ (forall (df : DataFrame) (col : string) (vs : list float),
        wf_frame df = true ->
        len df <> 0%nat ->
        lookup col (columns df) = Some (NumSeries vs) ->
        dropna vs = [] ->
        exists report row,
          count_outliers_per_column df = ([], inr report)
          /\ In row (rrows report)
          /\ row = [("Column", VStr col);
                    ("Number of High outliers", VInt 0);
                    ("Number of Low outliers", VInt 0);
                    ("High outliers %", VFloat (Some 0));
                    ("Low outliers %", VFloat (Some 0))]%string)
  /\ (forall (df : DataFrame) (e : PyExc),
        outcome (count_outliers_per_column df) = inl e ->
        String.eqb e "EmptyColumnError" = false).
Proof.
  split; [|split].
  - intros df H. rewrite count_outliers_unfold, H. reflexivity.
  - intros df col vs Hwf Hlen Hcol Hna.
    destruct (count_outliers_returns df Hwf Hlen) as (report & Hrun & Hrows & _).
    exists report, (record_of df col).
    split; [exact Hrun|]. split.
    + rewrite Hrows. apply in_map. apply (lookup_numeric_columns df col vs Hcol).
    + pose proof (record_of_value df col vs Hwf Hlen Hcol) as Hrec.
      cbv zeta in Hrec. rewrite Hrec.
      rewrite !(quantile_empty vs _ Hna). simpl fsub. simpl fadd. simpl fmul.
      assert (Hhigh : filter (fun v : float => fgt v NaN) vs = []).
      { clear. induction vs as [|v t IH]; simpl; [reflexivity | exact IH]. }
      assert (Hlow : filter (fun v : float => flt v NaN) vs = []).
      { clear. induction vs as [|v t IH]; simpl; [reflexivity|].
        rewrite flt_NaN_r. exact IH. }
      rewrite Hhigh, Hlow. simpl List.length.
      assert (Hz : fl (inject_Z (Z.of_nat 0 * 100) / inject_Z (Z.of_nat (len df)))
                   = Some 0).
      { apply (fl_eq _ 0). change (inject_Z (Z.of_nat 0 * 100)) with 0.
        unfold Qdiv. apply Qmult_0_l. }
      rewrite Hz. reflexivity.
  - intros df e H. apply count_outliers_raise_kinds in H.
    destruct H as [-> | [-> | ->]]; reflexivity.
Qed.

Lemma outlier_count_on_empty_input_witness :
  count_outliers_per_column {| index := []; columns := [] |}
  = ([], inr (empty_report
                ["Column"; "Number of high outliers"; "Number of low outliers"]%string))
  /\ exists report row,
       count_outliers_per_column df_missing = ([], inr report)
       /\ In row (rrows report)
       /\ row = [("Column", VStr "x");
                 ("Number of High outliers", VInt 0);
                 ("Number of Low outliers", VInt 0);
                 ("High outliers %", VFloat (Some 0));
                 ("Low outliers %", VFloat (Some 0))]%string.
Proof.
  split.
  - apply (proj1 outlier_count_on_empty_input). reflexivity.
  - apply (proj1 (proj2 outlier_count_on_empty_input) df_missing "x"%string [NaN; NaN]).
    + reflexivity.
    + discriminate.
    + reflexivity.
    + reflexivity.
Defined.

(** A table with a numeric column and no rows makes the count raise
    [ZeroDivisionError]; a column with rows and no value present gets a
    record of zeros instead of an error. *)
Lemma outlier_count_empty_table_raises :
  wf_frame df_no_rows = true
  /\ len df_no_rows = 0%nat
  /\ numeric_columns df_no_rows = ["x"%string]
  /\ count_outliers_per_column df_no_rows = ([], inl ZeroDivisionError)
  /\ count_outliers_per_column df_missing
     = ([], inr {| rcolumns :=
                     ["Column"; "Number of high outliers"; "Number of low outliers";
                      "Number of High outliers"; "Number of Low outliers";
                      "High outliers %"; "Low outliers %"]%string;
                   rrows :=
                     [[("Column", VStr "x");
                       ("Number of High outliers", VInt 0);
                       ("Number of Low outliers", VInt 0);
                       ("High outliers %", VFloat (Some 0));
                       ("Low outliers %", VFloat (Some 0))]%string] |}).
Proof. repeat split; vm_compute; reflexivity. Qed.

(** C9. For a numeric column with a value present, the mode printed by the
    discrete and by the categorical study is a value of the column that no
    value outnumbers, and the smallest of the values that are as frequent;
    the column [1,1,2,2] has mode 1. *)
Theorem mode_is_smallest_most_frequent :
  (forall (ext : Externals) (df : DataFrame) (col : string)
          (target : option string) (vs : list float),
      lookup col (columns df) = Some (NumSeries vs) ->
      dropna vs <> [] ->
      exists m : Q,
        In (Print [VStr "The column "; VStr col; VStr " mode is "; VFloat (Some m)])
           (output (study_column_discrete ext df col target true))
        /\ In (Print [VStr "The column "; VStr col; VStr " mode is "; VFloat (Some m)])
             (output (study_column_categorical df col target))
        /\ In m (dropna vs)
        /\ forall v, In v (dropna vs) ->
             (count_of Qeq_bool v (dropna vs) <= count_of Qeq_bool m (dropna vs))%nat
             /\ (count_of Qeq_bool v (dropna vs) = count_of Qeq_bool m (dropna vs) ->
                 m <= v))
  /\ (forall (ext : Externals) (target : option string),
        In (Print [VStr "The column "; VStr "x"; VStr " mode is "; VFloat (Some 1)])
           (output (study_column_discrete ext df_ties "x" target true))
        /\ In (Print [VStr "The column "; VStr "x"; VStr " mode is "; VFloat (Some 1)])
             (output (study_column_categorical df_ties "x" target))).
Proof.
  split.
  - intros ext df col target vs Hcol Hne.
    destruct (numeric_mode vs Hne) as (m & Hmode & Hin & Hall).
    exists m. split; [|split; [|split; assumption]].
    + apply (study_discrete_prints_mode ext df col target vs _ Hcol Hmode).
    + apply (study_categorical_prints_mode df col target vs _ Hcol Hmode).
  - intros ext target. split.
    + apply (study_discrete_prints_mode ext df_ties "x" target
               [Some 1; Some 1; Some 2; Some 2]); reflexivity.
    + apply (study_categorical_prints_mode df_ties "x" target
               [Some 1; Some 1; Some 2; Some 2]); reflexivity.
Qed.

Lemma mode_is_smallest_most_frequent_witness :
  exists m : Q,
    In (Print [VStr "The column "; VStr "x"; VStr " mode is "; VFloat (Some m)])
       (output (study_column_categorical df_ties "x" None))
    /\ In m [1; 1; 2; 2]
    /\ forall v, In v [1; 1; 2; 2] ->
         Nat.le (count_of Qeq_bool v [1; 1; 2; 2]) (count_of Qeq_bool m [1; 1; 2; 2])
         /\ (count_of Qeq_bool v [1; 1; 2; 2] = count_of Qeq_bool m [1; 1; 2; 2] ->
             m <= v).
Proof.
  destruct (proj1 mode_is_smallest_most_frequent no_ext df_ties "x"%string None
              [Some 1; Some 1; Some 2; Some 2])
    as (m & _ & Hcat & Hin & Hall); [reflexivity | discriminate |].
  exists m. split; [exact Hcat | split; [exact Hin | exact Hall]].
Defined.

(** C10. Every record of the frame returned by the outlier count leaves
    the declared columns "Number of high outliers" and "Number of low
    outliers" unfilled: the counts and percentages are stored under the
    appended labels "Number of High outliers", "Number of Low outliers",
    "High outliers %" and "Low outliers %".  With rows and a numeric column
    the frame is returned, has a record, and carries both the declared and
    the appended labels. *)
Theorem declared_count_columns_unfilled :
  (forall (df : DataFrame) (report : Report),
      outcome (count_outliers_per_column df) = inr report ->
      forall row, In row (rrows report) ->
        cell row "Number of high outliers" = None
        /\ cell row "Number of low outliers" = None
        /\ exists (col : string) (high low : Z) (high_pct low_pct : float),
             cell row "Column" = Some (VStr col)
             /\ cell row "Number of High outliers" = Some (VInt high)
             /\ cell row "Number of Low outliers" = Some (VInt low)
             /\ cell row "High outliers %" = Some (VFloat high_pct)
             /\ cell row "Low outliers %" = Some (VFloat low_pct))
  /\ (forall df : DataFrame,
        wf_frame df = true ->
        len df <> 0%nat ->
        numeric_columns df <> [] ->
        exists report,
          count_outliers_per_column df = ([], inr report)
          /\ List.length (rrows report) = List.length (numeric_columns df)
          /\ rrows report <> []
          /\ forall label,
               In label ["Column"; "Number of high outliers"; "Number of low outliers";
                         "Number of High outliers"; "Number of Low outliers";
                         "High outliers %"; "Low outliers %"]%string ->
               In label (rcolumns report)).
Proof.
  split.
  - intros df report Hrun row Hrow.
    rewrite count_outliers_unfold in Hrun.
    destruct (count_fold_rows df _ _ _ Hrun row Hrow) as [[] | (c & _ & Hrec)].
    apply outlier_record_shape in Hrec.
    destruct Hrec as (high & low & hp & lp & ->).
    split; [reflexivity | split; [reflexivity|]].
    exists c, high, low, hp, lp. repeat split; reflexivity.
  - intros df Hwf Hlen Hne.
    destruct (count_outliers_returns df Hwf Hlen)
      as (report & Hrun & Hrows & Hdecl & Happ).
    exists report. split; [exact Hrun|]. split; [|split].
    + rewrite Hrows. apply length_map.
    + rewrite Hrows. destruct (numeric_columns df); [congruence | discriminate].
    + intros label Hl. simpl in Hl.
      destruct Hl as [<- | [<- | [<- | Hl]]];
        try (apply Hdecl; simpl; tauto).
      apply (Happ Hne). exact Hl.
Qed.

Lemma declared_count_columns_unfilled_witness :
  exists report row,
    count_outliers_per_column df_skewed = ([], inr report)
    /\ rrows report = [row]
    /\ In "Number of high outliers"%string (rcolumns report)
    /\ cell row "Number of high outliers" = None
    /\ cell row "Number of High outliers" = Some (VInt 1).
Proof.
  destruct (proj2 declared_count_columns_unfilled df_skewed)
    as (report & Hrun & _ & _ & Hlabels); [reflexivity | discriminate | discriminate |].
  exists report.
  exists [("Column", VStr "x"); ("Number of High outliers", VInt 1);
          ("Number of Low outliers", VInt 0);
          ("High outliers %", VFloat (fl 16.67));
          ("Low outliers %", VFloat (Some 0))]%string.
  split; [exact Hrun|].
  assert (Hrep : snd (count_outliers_per_column df_skewed) = inr report)
    by (rewrite Hrun; reflexivity).
  vm_compute in Hrep. injection Hrep as <-.
  split; [reflexivity|]. split; [|split; reflexivity].
  simpl. tauto.
Defined.
